(** * RvaIndexLookup: a shallow embedding of the two-level RVA index reader

    The development follows [src/RvaIndexLookup.cpp] and
    [include/Il2CppDumper/RvaIndexLookup.h].  Unsigned machine integers are
    integers of [Z] with the wrap-around written where the C++ arithmetic
    can wrap; files are lists of bytes; an output pointer is an [option]
    ([None] is [nullptr], [Some v] a valid pointer whose pointee holds [v]);
    the [mutable] members touched by the [const] query API are threaded
    explicitly through every call.  The query is embedded twice: as the
    function of its inputs ([FindClosestLowerOrEqualLine]), and as a run
    that lists its steps in program order and in which a store through a
    null pointer is undefined ([FindClosestLowerOrEqualLine_run]); the two
    are proved to agree.

    Modelling choices: [size_t] and [std::streamoff] are 64 bits wide;
    indices and byte offsets that the code keeps below those bounds are
    natural numbers; a file is the immutable list of its bytes while a
    stream is open on it; of the stream state only [failbit] is kept (no
    [badbit]: the device does not fail); allocation never fails. *)

From Stdlib Require Import ZArith List String Ascii Bool Lia Arith.
From Stdlib Require Import Strings.Byte.
Import ListNotations.

Local Open Scope string_scope.
Local Open Scope list_scope.
Local Open Scope Z_scope.

Local Abbreviation length := List.length (only parsing).

(** ** Little-endian readers *)

Module Le.

Definition u8 (b : byte) : Z := Z.of_N (Byte.to_N b).

(** [p[i]] for a buffer [p] seen from offset 0. *)
Definition at_ (p : list byte) (i : nat) : Z := u8 (nth i p x00).

Definition ReadLe16 (p : list byte) (off : nat) : Z :=
  (Z.lor (at_ p off) (Z.shiftl (at_ p (off + 1)) 8)) mod 2 ^ 16.

Definition ReadLe32 (p : list byte) (off : nat) : Z :=
  Z.lor (Z.lor (Z.lor (at_ p off)
                      (Z.shiftl (at_ p (off + 1)) 8))
               (Z.shiftl (at_ p (off + 2)) 16))
        (Z.shiftl (at_ p (off + 3)) 24).

Definition ReadLe64 (p : list byte) (off : nat) : Z :=
  Z.lor (ReadLe32 p off) (Z.shiftl (ReadLe32 p (off + 4)) 32).

End Le.
Export Le.

(** ** Output pointers *)

Definition ptr (A : Type) := option A.

Definition is_null {A} (p : ptr A) : bool :=
  match p with None => true | Some _ => false end.

(** [*p = v] through a pointer: a store through a valid pointer replaces the
    pointee.  Every store of the source is guarded by a null check, so the
    null case is never reached; [Run.write] is the same store with the null
    case kept apart as undefined behaviour. *)
Definition store {A} (p : ptr A) (v : A) : ptr A :=
  match p with None => None | Some _ => Some v end.

Definition SetError (error : ptr string) (value : string) : ptr string :=
  match error with
  | None => None
  | Some _ => Some value
  end.

(** ** std::ifstream over an immutable file image *)

Definition FileSystem := string -> option (list byte).

Record ifstream := mk_ifstream {
  is_open : bool;
  fdata : list byte;
  gpos : Z;
  failbit : bool
}.

Module Stream.

Definition closed : ifstream :=
  {| is_open := false; fdata := []; gpos := 0; failbit := false |}.

Definition setfail (s : ifstream) : ifstream :=
  {| is_open := is_open s; fdata := fdata s; gpos := gpos s; failbit := true |}.

(** [open]: succeeds on an existing file of a stream that is not open yet,
    and then clears the state flags; fails by setting [failbit]. *)
Definition open (fs : FileSystem) (s : ifstream) (path : string) : ifstream :=
  if is_open s then setfail s
  else match fs path with
       | Some bytes => {| is_open := true; fdata := bytes; gpos := 0; failbit := false |}
       | None => setfail s
       end.

Definition close (s : ifstream) : ifstream :=
  if is_open s
  then {| is_open := false; fdata := []; gpos := 0; failbit := failbit s |}
  else setfail s.

Definition clear (s : ifstream) : ifstream :=
  {| is_open := is_open s; fdata := fdata s; gpos := gpos s; failbit := false |}.

(** [seekg(off, beg)]: does nothing on a failed stream; a negative target
    or a stream without a file sets [failbit]; a target past the end is
    accepted (the read that follows comes up short). *)
Definition seekg (s : ifstream) (off : Z) : ifstream :=
  if failbit s then s
  else if negb (is_open s) || (off <? 0) then setfail s
  else {| is_open := true; fdata := fdata s; gpos := off; failbit := false |}.

(** [ReadFully]: [Some buf] carries the [size] bytes read; [None] is the
    short read ([failbit] set, or [gcount() != size]).  [read] on a stream
    that is not good extracts nothing and sets [failbit]; a request for no
    bytes on a good stream extracts nothing and sets no flag, wherever the
    position is and whether or not a file is open; otherwise the bytes must
    all be there.  The partially filled destination of a short read is
    never looked at by a caller. *)
Definition ReadFully (s : ifstream) (size : nat) : option (list byte) * ifstream :=
  if failbit s then (None, setfail s)
  else if Nat.eqb size 0 then (Some [], s)
  else if negb (is_open s) then (None, setfail s)
  else if gpos s + Z.of_nat size <=? Z.of_nat (length (fdata s))
       then (Some (firstn size (skipn (Z.to_nat (gpos s)) (fdata s))),
             {| is_open := true; fdata := fdata s;
                gpos := gpos s + Z.of_nat size; failbit := false |})
       else (None,
             {| is_open := true; fdata := fdata s;
                gpos := Z.of_nat (length (fdata s)); failbit := true |}).

End Stream.

(** ** Standard algorithms used by the source *)

Module Std.

Section Algo.
Context {A : Type}.

(** [std::is_sorted(first, last, comp)]: scan for the first adjacent pair
    with [comp(next, current)]. *)
Fixpoint is_sorted (comp : A -> A -> bool) (v : list A) : bool :=
  match v with
  | [] => true
  | x :: tl =>
      match tl with
      | [] => true
      | y :: _ => if comp y x then false else is_sorted comp tl
      end
  end.

(** [std::upper_bound(first, last, val, comp)]: the halving search over
    iterator distances; [len] strictly decreases, so [len] itself bounds
    the number of iterations. *)
Fixpoint upper_bound_loop (comp : Z -> A -> bool) (d : A) (v : list A)
         (val : Z) (fuel first len : nat) : nat :=
  match fuel with
  | O => first
  | S fuel' =>
      if Nat.eqb len 0 then first
      else
        let half := Nat.div2 len in
        let middle := (first + half)%nat in
        if comp val (nth middle v d)
        then upper_bound_loop comp d v val fuel' first half
        else upper_bound_loop comp d v val fuel' (middle + 1)%nat (len - half - 1)%nat
  end.

Definition upper_bound (comp : Z -> A -> bool) (d : A) (v : list A) (val : Z) : nat :=
  upper_bound_loop comp d v val (length v) 0%nat (length v).

Definition empty (v : list A) : bool :=
  match v with [] => true | _ => false end.

Definition push_back (v : list A) (x : A) : list A := v ++ [x].

(** [std::equal(first1, last1, first2)] *)
Fixpoint equal (eqb : A -> A -> bool) (a b : list A) : bool :=
  match a with
  | [] => true
  | x :: a' =>
      match b with
      | [] => false
      | y :: b' => eqb x y && equal eqb a' b'
      end
  end.
End Algo.

End Std.

(** ** Constants *)

Definition kIndex1Magic : list byte := [x49; x44; x58; x31].
Definition kIndex2Magic : list byte := [x49; x44; x58; x32].
Definition kVersion1 : Z := 1.
Definition kVersion2 : Z := 2.
Definition kVersion3 : Z := 3.

Definition SIZE_MAX : Z := 2 ^ 64 - 1.
Definition wrap64 (z : Z) : Z := z mod 2 ^ 64.

(** [static_cast<std::streamoff>(uint64_t)]: reinterpretation as a signed
    64-bit offset. *)
Definition to_streamoff (z : Z) : Z :=
  if z <? 2 ^ 63 then z else z - 2 ^ 64.

(** ** Data model *)

Record Index1Entry := mk_Index1Entry {
  startRva : Z;
  index2Offset : Z;
  index2Size : Z
}.

Definition Index1Entry_default : Index1Entry :=
  {| startRva := 0; index2Offset := 0; index2Size := 0 |}.

Record DecodedBlock := mk_DecodedBlock {
  rvas : list Z;
  lines : list Z
}.

Definition DecodedBlock_empty : DecodedBlock := {| rvas := []; lines := [] |}.

Record RvaIndexLookup := mk_RvaIndexLookup {
  index1Entries_ : list Index1Entry;
  index2Path_ : string;
  totalDumpLines_ : Z;
  index2Stream_ : ifstream;
  index2OpenAttempted_ : bool;
  lastError_ : string;
  cachedBlockIndex_ : Z;
  cachedBlock_ : DecodedBlock
}.

(** A default-constructed object (the member initialisers of the header). *)
Definition RvaIndexLookup_new : RvaIndexLookup :=
  {| index1Entries_ := []; index2Path_ := ""; totalDumpLines_ := 0;
     index2Stream_ := Stream.closed; index2OpenAttempted_ := false;
     lastError_ := ""; cachedBlockIndex_ := SIZE_MAX;
     cachedBlock_ := DecodedBlock_empty |}.

Definition set_index1Entries (v : list Index1Entry) (t : RvaIndexLookup) :=
  mk_RvaIndexLookup v (index2Path_ t) (totalDumpLines_ t) (index2Stream_ t)
    (index2OpenAttempted_ t) (lastError_ t) (cachedBlockIndex_ t) (cachedBlock_ t).

Definition set_index2Path (v : string) (t : RvaIndexLookup) :=
  mk_RvaIndexLookup (index1Entries_ t) v (totalDumpLines_ t) (index2Stream_ t)
    (index2OpenAttempted_ t) (lastError_ t) (cachedBlockIndex_ t) (cachedBlock_ t).

Definition set_totalDumpLines (v : Z) (t : RvaIndexLookup) :=
  mk_RvaIndexLookup (index1Entries_ t) (index2Path_ t) v (index2Stream_ t)
    (index2OpenAttempted_ t) (lastError_ t) (cachedBlockIndex_ t) (cachedBlock_ t).

Definition set_index2Stream (v : ifstream) (t : RvaIndexLookup) :=
  mk_RvaIndexLookup (index1Entries_ t) (index2Path_ t) (totalDumpLines_ t) v
    (index2OpenAttempted_ t) (lastError_ t) (cachedBlockIndex_ t) (cachedBlock_ t).

Definition set_index2OpenAttempted (v : bool) (t : RvaIndexLookup) :=
  mk_RvaIndexLookup (index1Entries_ t) (index2Path_ t) (totalDumpLines_ t) (index2Stream_ t)
    v (lastError_ t) (cachedBlockIndex_ t) (cachedBlock_ t).

Definition set_lastError (v : string) (t : RvaIndexLookup) :=
  mk_RvaIndexLookup (index1Entries_ t) (index2Path_ t) (totalDumpLines_ t) (index2Stream_ t)
    (index2OpenAttempted_ t) v (cachedBlockIndex_ t) (cachedBlock_ t).

Definition set_cache (i : Z) (b : DecodedBlock) (t : RvaIndexLookup) :=
  mk_RvaIndexLookup (index1Entries_ t) (index2Path_ t) (totalDumpLines_ t) (index2Stream_ t)
    (index2OpenAttempted_ t) (lastError_ t) i b.

Definition GetTotalDumpLines (this : RvaIndexLookup) : Z := totalDumpLines_ this.

(** ** The operations of [RvaIndexLookup] *)

Section Operations.

Variable fs : FileSystem.

(** Lines 191-209. *)
Definition EnsureIndex2Open (error : ptr string) (this : RvaIndexLookup)
  : bool * ptr string * RvaIndexLookup :=
  if is_open (index2Stream_ this) then (true, error, this)
  else if index2OpenAttempted_ this
       then (false, SetError error (lastError_ this), this)
       else
         let this := set_index2OpenAttempted true this in
         let this := set_index2Stream
                       (Stream.open fs (index2Stream_ this) (index2Path_ this)) this in
         if failbit (index2Stream_ this)
         then
           let this := set_lastError
                         (String.append "Failed to open index2 file: " (index2Path_ this))
                         this in
           (false, SetError error (lastError_ this), this)
         else (true, error, this).

(** The record loop of lines 258-273: [n] counts the iterations left, [i]
    is the loop index, [off] the byte offset of record [i]. *)
Fixpoint decode_loop (n : nat) (buf : list byte) (startRva startLine : Z)
         (i off : nat) (currentRva : Z) (decoded : DecodedBlock)
  : DecodedBlock :=
  match n with
  | O => decoded
  | S n' =>
      let addrDelta := ReadLe32 buf off in
      let absoluteLine := ReadLe32 buf (off + 4) in
      let currentRva' :=
        if Nat.eqb i 0 then wrap64 (startRva + addrDelta)
        else wrap64 (currentRva + addrDelta) in
      let lines' :=
        if Nat.eqb i 0
        then Std.push_back (lines decoded)
                           (if absoluteLine =? 0 then startLine else absoluteLine)
        else Std.push_back (lines decoded) absoluteLine in
      decode_loop n' buf startRva startLine (i + 1) (off + 8) currentRva'
                  {| rvas := Std.push_back (rvas decoded) currentRva';
                     lines := lines' |}
  end.

(** Lines 211-284. *)
Definition LoadDecodedBlock (blockIndex : Z) (outBlock : ptr DecodedBlock)
           (error : ptr string) (this : RvaIndexLookup)
  : bool * ptr DecodedBlock * ptr string * RvaIndexLookup :=
  if is_null outBlock
  then (false, outBlock, SetError error "Internal error: outBlock is null", this)
  else if Z.of_nat (length (index1Entries_ this)) <=? blockIndex
  then (false, outBlock, SetError error "Block index out of range", this)
  else
    match EnsureIndex2Open error this with
    | (false, error, this) => (false, outBlock, error, this)
    | (true, error, this) =>
        if cachedBlockIndex_ this =? blockIndex
        then (true, store outBlock (cachedBlock_ this), error, this)
        else
          let e := nth (Z.to_nat blockIndex) (index1Entries_ this) Index1Entry_default in
          if index2Size e <? 16
          then (false, outBlock,
                SetError error "Corrupt block: size smaller than block header", this)
          else
            let s := Stream.clear (index2Stream_ this) in
            let s := Stream.seekg s (to_streamoff (index2Offset e)) in
            match Stream.ReadFully s (Z.to_nat (index2Size e)) with
            | (None, s) =>
                (false, outBlock, SetError error "Failed reading index2 block",
                 set_index2Stream s this)
            | (Some buf, s) =>
                let this := set_index2Stream s this in
                let startRva := ReadLe64 buf 0 in
                let startLine := ReadLe32 buf 8 in
                let recordCount := ReadLe32 buf 12 in
                let expected := wrap64 (16 + recordCount * 8) in
                if negb (expected =? index2Size e)
                then (false, outBlock,
                      SetError error "Corrupt block: record count does not match block size",
                      this)
                else
                  let decoded :=
                    decode_loop (Z.to_nat recordCount) buf startRva startLine
                                0 16 startRva DecodedBlock_empty in
                  if negb (Std.empty (rvas decoded))
                     && negb (Std.is_sorted Z.ltb (rvas decoded))
                  then (false, outBlock,
                        SetError error "Corrupt block: RVAs are not sorted", this)
                  else (true, store outBlock decoded, error,
                        set_cache blockIndex decoded this)
            end
    end.

(** The lambda of lines 156-167. *)
Definition floorInBlock (queryRva : Z) (b : DecodedBlock) (out : ptr Z)
  : bool * ptr Z :=
  if Std.empty (rvas b) then (false, out)
  else
    let bit := Std.upper_bound (fun value x => value <? x) 0 (rvas b) queryRva in
    if Nat.eqb bit 0 then (false, out)
    else
      let i := (bit - 1)%nat in
      (true, store out (nth i (lines b) 0)).

(** Lines 133-189. *)
Definition FindClosestLowerOrEqualLine (queryRva : Z) (outLine : ptr Z)
           (this : RvaIndexLookup) : bool * ptr Z * RvaIndexLookup :=
  if is_null outLine || Std.empty (index1Entries_ this)
  then (false, outLine, this)
  else if queryRva <? startRva (hd Index1Entry_default (index1Entries_ this))
  then (false, outLine, this)
  else
    let it := Std.upper_bound (fun value entry => value <? startRva entry)
                              Index1Entry_default (index1Entries_ this) queryRva in
    if Nat.eqb it 0 then (false, outLine, this)
    else
      let blockIndex := Z.of_nat it - 1 in
      let error := Some "" in
      let block := Some DecodedBlock_empty in
      match LoadDecodedBlock blockIndex block error this with
      | (false, _, _, this) => (false, outLine, this)
      | (true, block, error, this) =>
          match floorInBlock queryRva
                             (match block with Some b => b | None => DecodedBlock_empty end)
                             outLine with
          | (true, outLine) => (true, outLine, this)
          | (false, outLine) =>
              if blockIndex =? 0 then (false, outLine, this)
              else
                let prevBlock := Some DecodedBlock_empty in
                match LoadDecodedBlock (blockIndex - 1) prevBlock error this with
                | (false, _, _, this) => (false, outLine, this)
                | (true, prevBlock, _, this) =>
                    let pb := match prevBlock with
                              | Some b => b
                              | None => DecodedBlock_empty
                              end in
                    if Std.empty (lines pb) then (false, outLine, this)
                    else (true, store outLine (last (lines pb) 0), this)
                end
          end
      end.

(** The entry loop of lines 57-69; [None] is the short read. *)
Fixpoint read_entries (n : nat) (f : ifstream) (entries : list Index1Entry)
  : option (list Index1Entry) :=
  match n with
  | O => Some entries
  | S n' =>
      match Stream.ReadFully f 24 with
      | (None, _) => None
      | (Some entryBuf, f) =>
          let entry := {| startRva := ReadLe64 entryBuf 0;
                          index2Offset := ReadLe64 entryBuf 8;
                          index2Size := ReadLe32 entryBuf 16 |} in
          read_entries n' f (Std.push_back entries entry)
      end
  end.

Definition supported_version (version : Z) : bool :=
  (version =? kVersion1) || (version =? kVersion2) || (version =? kVersion3).

(** Lines 20-29. *)
Definition Load_reset (this : RvaIndexLookup) : RvaIndexLookup :=
  let this := set_index1Entries [] this in
  let this := set_index2Path "" this in
  let this := if is_open (index2Stream_ this)
              then set_index2Stream (Stream.close (index2Stream_ this)) this
              else this in
  let this := set_index2OpenAttempted false this in
  let this := set_lastError "" this in
  let this := set_totalDumpLines 0 this in
  set_cache SIZE_MAX DecodedBlock_empty this.

(** Lines 31-69: [inl msg] is the failure reported with [msg], [inr t] the
    table read from the file. *)
Definition Load_index1 (index1Path : string) : string + list Index1Entry :=
  let f := Stream.open fs Stream.closed index1Path in
  if failbit f
  then inl (String.append "Failed to open index1 file: " index1Path)
  else
    match Stream.ReadFully f 12 with
    | (None, _) => inl "Failed to read index1 header"
    | (Some header, f) =>
        if negb (Std.equal Byte.eqb kIndex1Magic header)
        then inl "index1 magic mismatch (expected IDX1)"
        else
          let version := ReadLe16 header 4 in
          if negb (supported_version version)
          then inl "Unsupported index1 version"
          else
            let entryCount := ReadLe32 header 8 in
            match read_entries (Z.to_nat entryCount) f [] with
            | None => inl "Failed to read index1 entry"
            | Some entries => inr entries
            end
    end.

Definition Load_fail (error : ptr string) (msg : string) (this : RvaIndexLookup)
  : bool * ptr string * RvaIndexLookup :=
  (false, SetError error msg,
   set_index2Path "" (set_index1Entries [] this)).

(** Lines 83-130. *)
Definition Load_index2 (index2Path : string) (error : ptr string)
           (this : RvaIndexLookup) : bool * ptr string * RvaIndexLookup :=
  let this := set_index2Path index2Path this in
  match EnsureIndex2Open error this with
  | (false, error, this) =>
      (false, error, set_index2Path "" (set_index1Entries [] this))
  | (true, error, this) =>
      let s := Stream.seekg (index2Stream_ this) 0 in
      match Stream.ReadFully s 12 with
      | (None, s) =>
          Load_fail error "Failed to read index2 header" (set_index2Stream s this)
      | (Some idx2HeaderBase, s) =>
          let this := set_index2Stream s this in
          if negb (Std.equal Byte.eqb kIndex2Magic idx2HeaderBase)
          then Load_fail error "index2 magic mismatch (expected IDX2)" this
          else
            let idx2Version := ReadLe16 idx2HeaderBase 4 in
            let blockCount := ReadLe32 idx2HeaderBase 8 in
            if negb (supported_version idx2Version)
            then Load_fail error "Unsupported index2 version" this
            else
              let after_total :=
                if kVersion2 <=? idx2Version
                then
                  match Stream.ReadFully (index2Stream_ this) 4 with
                  | (None, s) => inl (set_index2Stream s this)
                  | (Some totalLinesBuf, s) =>
                      inr (set_totalDumpLines (ReadLe32 totalLinesBuf 0)
                                              (set_index2Stream s this))
                  end
                else inr this in
              match after_total with
              | inl this =>
                  Load_fail error "Failed to read index2 total_dump_lines" this
              | inr this =>
                  if negb (blockCount =? Z.of_nat (length (index1Entries_ this)))
                  then Load_fail error
                                 "index1 entry count does not match index2 block count"
                                 this
                  else (true, error, this)
              end
      end
  end.

(** Lines 19-131. *)
Definition Load (index1Path index2Path : string) (error : ptr string)
           (this : RvaIndexLookup) : bool * ptr string * RvaIndexLookup :=
  let this := Load_reset this in
  match Load_index1 index1Path with
  | inl msg => (false, SetError error msg, this)
  | inr entries =>
      let this := set_index1Entries entries this in
      if Std.empty (index1Entries_ this)
      then (false, SetError error "index1 has no entries", this)
      else if negb (Std.is_sorted (fun a b => startRva a <? startRva b)
                                  (index1Entries_ this))
      then (false, SetError error "index1 entries are not sorted by startRva",
            set_index1Entries [] this)
      else Load_index2 index2Path error this
  end.

End Operations.

(** ** The query as a run of steps

    A run lists the steps of a call in program order (the test of the
    output pointer, the looks at the routing table, the block requests, the
    searches and the stores through the pointer) and ends either with the
    value returned or as undefined, when a store goes through a null
    pointer. *)

Module Run.

Inductive event : Type :=
| TestOutLine                            (* outLine == nullptr *)
| TestTableEmpty                         (* index1Entries_.empty() *)
| ReadFront                              (* index1Entries_.front().startRva *)
| SearchTable                            (* std::upper_bound over index1Entries_ *)
| CallLoadDecodedBlock (blockIndex : Z)  (* LoadDecodedBlock(blockIndex, ...) *)
| SearchBlock                            (* std::upper_bound over b.rvas *)
| WriteOutLine (v : Z).                  (* *outLine = v *)

Inductive outcome (A : Type) : Type :=
| Returned (a : A)
| Undefined.

Arguments Returned {A} a.
Arguments Undefined {A}.

Definition run (A : Type) : Type := (list event * outcome A)%type.

Definition ret {A : Type} (a : A) : run A := ([], Returned a).

Definition bind {A B : Type} (m : run A) (f : A -> run B) : run B :=
  match snd m with
  | Returned a => (fst m ++ fst (f a), snd (f a))
  | Undefined => (fst m, Undefined)
  end.

Definition emit (e : event) : run unit := ([e], Returned tt).

(** [*p = v]: undefined through a null pointer. *)
Definition write (p : ptr Z) (v : Z) : run (ptr Z) :=
  match p with
  | None => ([WriteOutLine v], Undefined)
  | Some _ => ([WriteOutLine v], Returned (Some v))
  end.

End Run.

Notation "x <- m ;; k" := (Run.bind m (fun x => k))
  (at level 61, m at next level, right associativity, only parsing).
Notation "m ;;; k" := (Run.bind m (fun _ => k))
  (at level 61, right associativity, only parsing).

Section Steps.

Variable fs : FileSystem.

(** The lambda of lines 156-167. *)
Definition floorInBlock_run (queryRva : Z) (b : DecodedBlock) (out : ptr Z)
  : Run.run (bool * ptr Z) :=
  if Std.empty (rvas b) then Run.ret (false, out)
  else
    Run.emit Run.SearchBlock ;;;
    let bit := Std.upper_bound (fun value x => value <? x) 0 (rvas b) queryRva in
    if Nat.eqb bit 0 then Run.ret (false, out)
    else
      let i := (bit - 1)%nat in
      out <- Run.write out (nth i (lines b) 0) ;;
      Run.ret (true, out).

(** Lines 133-189.  The two operands of [||] on line 134 are evaluated left
    to right, the second only when the first is false. *)
Definition FindClosestLowerOrEqualLine_run (queryRva : Z) (outLine : ptr Z)
           (this : RvaIndexLookup) : Run.run (bool * ptr Z * RvaIndexLookup) :=
  Run.emit Run.TestOutLine ;;;
  if is_null outLine then Run.ret (false, outLine, this)
  else
    Run.emit Run.TestTableEmpty ;;;
    if Std.empty (index1Entries_ this) then Run.ret (false, outLine, this)
    else
      Run.emit Run.ReadFront ;;;
      if queryRva <? startRva (hd Index1Entry_default (index1Entries_ this))
      then Run.ret (false, outLine, this)
      else
        Run.emit Run.SearchTable ;;;
        let it := Std.upper_bound (fun value entry => value <? startRva entry)
                                  Index1Entry_default (index1Entries_ this) queryRva in
        if Nat.eqb it 0 then Run.ret (false, outLine, this)
        else
          let blockIndex := Z.of_nat it - 1 in
          let error := Some "" in
          let block := Some DecodedBlock_empty in
          Run.emit (Run.CallLoadDecodedBlock blockIndex) ;;;
          match LoadDecodedBlock fs blockIndex block error this with
          | (false, _, _, this) => Run.ret (false, outLine, this)
          | (true, block, error, this) =>
              r <- floorInBlock_run queryRva
                     (match block with Some b => b | None => DecodedBlock_empty end)
                     outLine ;;
              match r with
              | (true, outLine) => Run.ret (true, outLine, this)
              | (false, outLine) =>
                  if blockIndex =? 0 then Run.ret (false, outLine, this)
                  else
                    let prevBlock := Some DecodedBlock_empty in
                    Run.emit (Run.CallLoadDecodedBlock (blockIndex - 1)) ;;;
                    match LoadDecodedBlock fs (blockIndex - 1) prevBlock error this with
                    | (false, _, _, this) => Run.ret (false, outLine, this)
                    | (true, prevBlock, _, this) =>
                        let pb := match prevBlock with
                                  | Some b => b
                                  | None => DecodedBlock_empty
                                  end in
                        if Std.empty (lines pb) then Run.ret (false, outLine, this)
                        else
                          outLine <- Run.write outLine (last (lines pb) 0) ;;
                          Run.ret (true, outLine, this)
                    end
              end
          end.

End Steps.

(** ** Synthetic index files

    Encoders for the two file formats, used to build concrete inputs. *)

Module Synth.

Definition byte_of (z : Z) : byte :=
  match Byte.of_N (Z.to_N (z mod 256)) with
  | Some b => b
  | None => x00
  end.

Definition le16 (z : Z) : list byte := [byte_of z; byte_of (z / 2 ^ 8)].
Definition le32 (z : Z) : list byte := le16 z ++ le16 (z / 2 ^ 16).
Definition le64 (z : Z) : list byte := le32 z ++ le32 (z / 2 ^ 32).

(** A block: header start key, header start value, and the records as
    (address delta, raw value) pairs. *)
Record block := mk_block {
  b_startKey : Z;
  b_startValue : Z;
  b_records : list (Z * Z)
}.

Definition block_bytes (b : block) : list byte :=
  le64 (b_startKey b) ++ le32 (b_startValue b)
    ++ le32 (Z.of_nat (length (b_records b)))
    ++ flat_map (fun r => le32 (fst r) ++ le32 (snd r)) (b_records b).

Definition index2_header (version blockCount total : Z) : list byte :=
  kIndex2Magic ++ le16 version ++ [x00; x00] ++ le32 blockCount
    ++ (if 2 <=? version then le32 total else []).

Definition index2_file (version blockCount total : Z) (bs : list block) : list byte :=
  index2_header version blockCount total ++ flat_map block_bytes bs.

Definition entry_bytes (e : Index1Entry) : list byte :=
  le64 (startRva e) ++ le64 (index2Offset e) ++ le32 (index2Size e) ++ le32 0.

Definition index1_file (version : Z) (es : list Index1Entry) : list byte :=
  kIndex1Magic ++ le16 version ++ [x00; x00] ++ le32 (Z.of_nat (length es))
    ++ flat_map entry_bytes es.

(** Routing entries for blocks laid out back to back from offset [off]. *)
Fixpoint route (off : Z) (starts : list Z) (bs : list block) : list Index1Entry :=
  match starts, bs with
  | s :: starts', b :: bs' =>
      let size := Z.of_nat (length (block_bytes b)) in
      {| startRva := s; index2Offset := off; index2Size := size |}
        :: route (off + size) starts' bs'
  | _, _ => []
  end.

(** A file system holding the two files under fixed names. *)
Definition files (i1 i2 : list byte) : FileSystem :=
  fun path =>
    if String.eqb path "index1.bin" then Some i1
    else if String.eqb path "index2.bin" then Some i2
    else None.

(** The two files of an index laid out by the format: [starts] are the
    routing keys, [bs] the blocks, stored back to back after the header. *)
Definition index_pair (version total : Z) (starts : list Z) (bs : list block)
  : FileSystem :=
  let hdr := Z.of_nat (length (index2_header version 0 total)) in
  files (index1_file version (route hdr starts bs))
        (index2_file version (Z.of_nat (length bs)) total bs).

(** [Load] on a fresh object, and the object it leaves. *)
Definition load (fs : FileSystem) : bool * ptr string * RvaIndexLookup :=
  Load fs "index1.bin" "index2.bin" (Some "") RvaIndexLookup_new.

Definition loaded (fs : FileSystem) : RvaIndexLookup := snd (load fs).

End Synth.

(** ** What the files hold, independently of the cache

    [decode_block data e] is the decoding of routing entry [e] against the
    image [data] of index file 2: the path of [LoadDecodedBlock] past the
    cache test, with the stream reduced to its file image. *)

Definition stream_on (data : list byte) : ifstream :=
  {| is_open := true; fdata := data; gpos := 0; failbit := false |}.

Definition block_buf (data : list byte) (e : Index1Entry) : option (list byte) :=
  fst (Stream.ReadFully
         (Stream.seekg (Stream.clear (stream_on data)) (to_streamoff (index2Offset e)))
         (Z.to_nat (index2Size e))).

Definition recordCount_of (buf : list byte) : Z := ReadLe32 buf 12.
Definition addrDelta_of (buf : list byte) (i : nat) : Z := ReadLe32 buf (16 + 8 * i).
Definition rawValue_of (buf : list byte) (i : nat) : Z := ReadLe32 buf (16 + 8 * i + 4).

Definition first_value (buf : list byte) (startLine : Z) : Z :=
  if rawValue_of buf 0 =? 0 then startLine else rawValue_of buf 0.

Definition decode_records (buf : list byte) : DecodedBlock :=
  decode_loop (Z.to_nat (recordCount_of buf)) buf (ReadLe64 buf 0) (ReadLe32 buf 8)
              0 16 (ReadLe64 buf 0) DecodedBlock_empty.

Definition msg_small : string := "Corrupt block: size smaller than block header".
Definition msg_read : string := "Failed reading index2 block".
Definition msg_count : string := "Corrupt block: record count does not match block size".
Definition msg_sorted : string := "Corrupt block: RVAs are not sorted".

Definition decode_buf (buf : list byte) (e : Index1Entry) : string + DecodedBlock :=
  if negb (wrap64 (16 + recordCount_of buf * 8) =? index2Size e) then inl msg_count
  else if negb (Std.empty (rvas (decode_records buf)))
          && negb (Std.is_sorted Z.ltb (rvas (decode_records buf)))
       then inl msg_sorted
       else inr (decode_records buf).

Definition decode_block (data : list byte) (e : Index1Entry) : string + DecodedBlock :=
  if index2Size e <? 16 then inl msg_small
  else match block_buf data e with
       | None => inl msg_read
       | Some buf => decode_buf buf e
       end.

Definition table (this : RvaIndexLookup) : list Index1Entry := index1Entries_ this.
Definition image (this : RvaIndexLookup) : list byte := fdata (index2Stream_ this).
Definition entry_at (this : RvaIndexLookup) (i : nat) : Index1Entry :=
  nth i (table this) Index1Entry_default.
Definition route_key (this : RvaIndexLookup) (i : nat) : Z := startRva (entry_at this i).
Definition block_at (this : RvaIndexLookup) (i : nat) : string + DecodedBlock :=
  decode_block (image this) (entry_at this i).

(** Key [k] with value [v] is stored as record [j] of block [i]. *)
Definition stored (this : RvaIndexLookup) (i j : nat) (k v : Z) : Prop :=
  (i < length (table this))%nat /\
  exists b, block_at this i = inr b /\ (j < length (rvas b))%nat /\
            nth j (rvas b) 0 = k /\ nth j (lines b) 0 = v.

Definition stored_key (this : RvaIndexLookup) (k : Z) : Prop :=
  exists i j v, stored this i j k v.

(** Position [(i, j)] comes no later than [(i', j')] in file order. *)
Definition pos_le (i j i' j' : nat) : Prop :=
  (i < i')%nat \/ (i = i' /\ (j <= j')%nat).

(** The engine states of a successfully loaded index: the state a successful
    [Load] leaves, and every state a query leaves after it. *)
Inductive Loaded (fs : FileSystem) : RvaIndexLookup -> Prop :=
| Loaded_Load : forall index1Path index2Path error this0 error' this,
    Load fs index1Path index2Path error this0 = (true, error', this) ->
    Loaded fs this
| Loaded_Find : forall this queryRva outLine,
    Loaded fs this ->
    Loaded fs (snd (FindClosestLowerOrEqualLine fs queryRva outLine this)).

(** Every state of an object's life: construction, then calls of [Load]
    (whatever they return) and queries. *)
Inductive Reachable (fs : FileSystem) : RvaIndexLookup -> Prop :=
| Reachable_new : Reachable fs RvaIndexLookup_new
| Reachable_Load : forall this index1Path index2Path error,
    Reachable fs this ->
    Reachable fs (snd (Load fs index1Path index2Path error this))
| Reachable_Find : forall this queryRva outLine,
    Reachable fs this ->
    Reachable fs (snd (FindClosestLowerOrEqualLine fs queryRva outLine this)).

(** The cache slot agrees with the file: it is vacant, or holds the decoding
    of the block it names. *)
Definition cache_ok (this : RvaIndexLookup) : Prop :=
  cachedBlockIndex_ this = SIZE_MAX
  \/ (0 <= cachedBlockIndex_ this < Z.of_nat (length (table this)) /\
      block_at this (Z.to_nat (cachedBlockIndex_ this)) = inr (cachedBlock_ this)).

Definition routing_sorted (t : list Index1Entry) : Prop :=
  forall i j, (i <= j < length t)%nat ->
              startRva (nth i t Index1Entry_default) <= startRva (nth j t Index1Entry_default).

Record Inv (this : RvaIndexLookup) : Prop := mk_Inv {
  inv_open : is_open (index2Stream_ this) = true;
  inv_nonempty : table this <> [];
  inv_size : Z.of_nat (length (table this)) <= SIZE_MAX;
  inv_sorted : routing_sorted (table this);
  inv_cache : cache_ok this
}.

(** Two states of one loaded index: same table, same file image, same
    reported total. *)
Definition same_index (a b : RvaIndexLookup) : Prop :=
  table b = table a /\ image b = image a /\ totalDumpLines_ b = totalDumpLines_ a.

(** The cache slot emptied, everything else kept. *)
Definition cold (this : RvaIndexLookup) : RvaIndexLookup :=
  set_cache SIZE_MAX DecodedBlock_empty this.

(** The query as a function of the table and the file image alone. *)
Definition find_pure (t : list Index1Entry) (data : list byte) (queryRva : Z)
           (out : Z) : bool * ptr Z :=
  if Std.empty t then (false, Some out)
  else if queryRva <? startRva (hd Index1Entry_default t) then (false, Some out)
  else
    let it := Std.upper_bound (fun value entry => value <? startRva entry)
                              Index1Entry_default t queryRva in
    if Nat.eqb it 0 then (false, Some out)
    else
      let blockIndex := (it - 1)%nat in
      match decode_block data (nth blockIndex t Index1Entry_default) with
      | inl _ => (false, Some out)
      | inr block =>
          match floorInBlock queryRva block (Some out) with
          | (true, o) => (true, o)
          | (false, o) =>
              if Nat.eqb blockIndex 0 then (false, o)
              else
                match decode_block data (nth (blockIndex - 1) t Index1Entry_default) with
                | inl _ => (false, o)
                | inr pb =>
                    if Std.empty (lines pb) then (false, o)
                    else (true, Some (last (lines pb) 0))
                end
          end
      end.

(** The stored keys respect the routing partition: every block decodes and
    holds at least one record, and the keys of block [i] lie between the
    routing key of block [i] and the routing key of the next block. *)
Definition partitioned (this : RvaIndexLookup) : Prop :=
  forall i, (i < length (table this))%nat ->
    exists b, block_at this i = inr b /\ rvas b <> [] /\
      forall k, In k (rvas b) ->
                route_key this i <= k /\
                ((S i < length (table this))%nat -> k <= route_key this (S i)).

(** ** Concrete index files *)

Module Examples.
Import Synth.

(** Two blocks inside the routing partition: keys 10, 40 | 60, 70. *)
Definition fs_good : FileSystem :=
  index_pair 2 77 [0; 50]
             [mk_block 0 5 [(10, 0); (30, 2)]; mk_block 50 9 [(10, 3); (10, 4)]].

(** Accepted by [Load], every block valid and sorted, but block 0 holds
    key 100 above the routing key 50 of block 1. *)
Definition fs_overlap : FileSystem :=
  index_pair 2 77 [0; 50]
             [mk_block 0 5 [(10, 1); (90, 2)]; mk_block 50 9 [(10, 3)]].

(** Block 0 is a valid block without records; block 1 starts at key 20. *)
Definition fs_gap : FileSystem :=
  index_pair 1 0 [0; 10] [mk_block 0 0 []; mk_block 10 9 [(10, 3)]].

(** One routing entry, but the header of index file 2 declares two blocks
    and a total of 7. *)
Definition fs_mismatch : FileSystem :=
  files (index1_file 2 [{| startRva := 0; index2Offset := 16; index2Size := 24 |}])
        (index2_file 2 2 7 [mk_block 0 5 [(10, 1)]]).

(** A block whose header key is the largest 64-bit value. *)
Definition fs_wrap : FileSystem :=
  index_pair 1 0 [0] [mk_block (2 ^ 64 - 1) 5 [(1, 7)]].

(** A routing table out of order. *)
Definition table_unsorted : list Index1Entry :=
  [{| startRva := 50; index2Offset := 12; index2Size := 24 |};
   {| startRva := 0; index2Offset := 36; index2Size := 24 |}].

Definition fs_unsorted : FileSystem :=
  files (index1_file 1 table_unsorted)
        (index2_file 1 2 0 [mk_block 50 9 [(10, 3)]; mk_block 0 5 [(10, 1)]]).

(** Index file 2 ends after block 0: the window of routing entry 1 starts
    at the end of the file. *)
Definition fs_short : FileSystem :=
  files (index1_file 1 [{| startRva := 0; index2Offset := 12; index2Size := 24 |};
                        {| startRva := 50; index2Offset := 36; index2Size := 24 |}])
        (index2_file 1 2 0 [mk_block 0 5 [(10, 1)]]).

End Examples.

(** ** File layout of index file 1, and delta sums *)

(** Sum of the address deltas of records 1 to [j] of a block buffer. *)
Fixpoint sum_deltas (buf : list byte) (j : nat) : Z :=
  match j with
  | O => 0
  | S j' => sum_deltas buf j' + addrDelta_of buf (S j')
  end.

(** Entry [k] of index file 1: the 24-byte record at offset 12 + 24 * k. *)
Definition entry_of (i1 : list byte) (k : nat) : Index1Entry :=
  {| startRva := ReadLe64 i1 (12 + 24 * k);
     index2Offset := ReadLe64 i1 (12 + 24 * k + 8);
     index2Size := ReadLe32 i1 (12 + 24 * k + 16) |}.

Definition table_of (i1 : list byte) (n : nat) : list Index1Entry :=
  map (entry_of i1) (seq 0 n).

(** * Verification *)

(** Projections of the engine record applied to its setters. *)
(** Projections of the engine record applied to its setters. *)
Ltac fields := cbn [index2Stream_ index2OpenAttempted_ set_index2Path set_index2Stream
         set_index2OpenAttempted set_lastError set_totalDumpLines set_index1Entries
         set_cache index1Entries_ index2Path_ totalDumpLines_ lastError_
         cachedBlockIndex_ cachedBlock_ failbit is_open fdata gpos negb orb
         Stream.setfail].
Ltac fields_in H := cbn [index2Stream_ index2OpenAttempted_ set_index2Path set_index2Stream
         set_index2OpenAttempted set_lastError set_totalDumpLines set_index1Entries
         set_cache index1Entries_ index2Path_ totalDumpLines_ lastError_
         cachedBlockIndex_ cachedBlock_ failbit is_open fdata gpos negb orb
         Stream.setfail] in H.

(** ** Ranges of the little-endian readers *)

Lemma u8_range (b : byte) : 0 <= u8 b < 2 ^ 8.
Proof.
  unfold u8. pose proof (Byte.to_N_bounded b) as H.
  change (2 ^ 8) with 256. lia.
Qed.

Lemma lor_range (a b n : Z) :
  0 <= n -> 0 <= a < 2 ^ n -> 0 <= b < 2 ^ n -> 0 <= Z.lor a b < 2 ^ n.
Proof.
  intros Hn Ha Hb. split.
  - apply Z.lor_nonneg; lia.
  - destruct (Z.eq_dec (Z.lor a b) 0) as [E | E].
    + rewrite E. apply Z.pow_pos_nonneg; lia.
    + assert (0 <= Z.lor a b) by (apply Z.lor_nonneg; lia).
      assert (0 < Z.lor a b) by lia.
      assert (0 < n).
      { destruct (Z.eq_dec n 0) as [-> | ?]; [| lia].
        change (2 ^ 0) with 1 in *.
        assert (a = 0) by lia. assert (b = 0) by lia. subst. simpl in E. lia. }
      apply Z.log2_lt_pow2; [lia |].
      rewrite Z.log2_lor by lia.
      apply Z.max_lub_lt.
      * destruct (Z.eq_dec a 0) as [-> | ?]; [simpl; lia |].
        apply Z.log2_lt_pow2; lia.
      * destruct (Z.eq_dec b 0) as [-> | ?]; [simpl; lia |].
        apply Z.log2_lt_pow2; lia.
Qed.

Lemma shiftl_range (a m k : Z) :
  0 <= m -> 0 <= k -> 0 <= a < 2 ^ m -> 0 <= Z.shiftl a k < 2 ^ (m + k).
Proof.
  intros Hm Hk Ha. rewrite Z.shiftl_mul_pow2 by lia.
  rewrite Z.pow_add_r by lia.
  assert (0 < 2 ^ k) by (apply Z.pow_pos_nonneg; lia).
  nia.
Qed.

Lemma at_range (p : list byte) (i : nat) : 0 <= at_ p i < 2 ^ 8.
Proof. apply u8_range. Qed.

Lemma widen (a m n : Z) : 0 <= m <= n -> 0 <= a < 2 ^ m -> 0 <= a < 2 ^ n.
Proof.
  intros Hmn Ha. split; [lia |].
  apply Z.lt_le_trans with (2 ^ m); [lia |].
  apply Z.pow_le_mono_r; lia.
Qed.

Lemma ReadLe32_range (p : list byte) (off : nat) : 0 <= ReadLe32 p off < 2 ^ 32.
Proof.
  unfold ReadLe32.
  repeat apply lor_range; try lia.
  - apply (widen _ 8); [lia | apply at_range].
  - apply (widen _ (8 + 8)); [lia |]. apply shiftl_range; try lia. apply at_range.
  - apply (widen _ (8 + 16)); [lia |]. apply shiftl_range; try lia. apply at_range.
  - apply (shiftl_range _ 8 24); try lia. apply at_range.
Qed.

Lemma ReadLe64_range (p : list byte) (off : nat) : 0 <= ReadLe64 p off < 2 ^ 64.
Proof.
  unfold ReadLe64. apply lor_range; try lia.
  - apply (widen _ 32); [lia | apply ReadLe32_range].
  - apply (shiftl_range _ 32 32); try lia. apply ReadLe32_range.
Qed.

Lemma ReadLe16_range (p : list byte) (off : nat) : 0 <= ReadLe16 p off < 2 ^ 16.
Proof. unfold ReadLe16. apply Z.mod_pos_bound. lia. Qed.

(** Reading inside a window of the file reads the file. *)
Lemma at_window (data : list byte) (start size i : nat) :
  (i < size)%nat ->
  at_ (firstn size (skipn start data)) i = at_ data (start + i).
Proof.
  intros Hi. unfold at_. f_equal.
  rewrite nth_firstn.
  destruct (Nat.ltb_spec i size); [| lia].
  apply nth_skipn.
Qed.

Lemma ReadLe16_window (data : list byte) (start size off : nat) :
  (off + 2 <= size)%nat ->
  ReadLe16 (firstn size (skipn start data)) off = ReadLe16 data (start + off).
Proof.
  intros H. unfold ReadLe16. rewrite !at_window by lia.
  replace (start + (off + 1))%nat with (start + off + 1)%nat by lia. reflexivity.
Qed.

Lemma ReadLe32_window (data : list byte) (start size off : nat) :
  (off + 4 <= size)%nat ->
  ReadLe32 (firstn size (skipn start data)) off = ReadLe32 data (start + off).
Proof.
  intros H. unfold ReadLe32. rewrite !at_window by lia.
  replace (start + (off + 1))%nat with (start + off + 1)%nat by lia.
  replace (start + (off + 2))%nat with (start + off + 2)%nat by lia.
  replace (start + (off + 3))%nat with (start + off + 3)%nat by lia.
  reflexivity.
Qed.

(** ** [std::is_sorted] and [std::upper_bound] *)

Section StdFacts.
Context {A : Type} (key : A -> Z) (d : A).

Lemma is_sorted_key (v : list A) :
  Std.is_sorted (fun a b => key a <? key b) v = true <->
  (forall i j, (i <= j < length v)%nat -> key (nth i v d) <= key (nth j v d)).
Proof.
  induction v as [| x tl IH]; simpl.
  - split; [intros _ i j Hij; lia | reflexivity].
  - destruct tl as [| y tl'].
    + split; [| reflexivity].
      intros _ i j Hij. simpl in Hij.
      assert (i = 0%nat) by lia. assert (j = 0%nat) by lia. subst. lia.
    + destruct (Z.ltb_spec (key y) (key x)) as [Hlt | Hge].
      * split; [discriminate |].
        intros H. specialize (H 0%nat 1%nat). simpl in H. lia.
      * rewrite IH. split.
        -- intros H i j Hij.
           destruct i as [| i'], j as [| j']; try lia.
           ++ specialize (H 0%nat j'). simpl in Hij.
              change (nth (S j') (x :: y :: tl') d) with (nth j' (y :: tl') d).
              change (nth 0 (x :: y :: tl') d) with x.
              change (nth 0 (y :: tl') d) with y in H.
              assert (key y <= key (nth j' (y :: tl') d)) by (apply H; simpl; lia).
              lia.
           ++ apply (H i' j'). simpl in *. lia.
        -- intros H i j Hij. apply (H (S i) (S j)). simpl in *. lia.
Qed.

Variable val : Z.
Variable v : list A.
Local Abbreviation comp := (fun (value : Z) (x : A) => value <? key x) (only parsing).

Lemma upper_bound_loop_le (fuel first len : nat) :
  (first <= Std.upper_bound_loop comp d v val fuel first len <= first + len)%nat.
Proof.
  revert first len. induction fuel as [| fuel IH]; intros first len; cbn [Std.upper_bound_loop].
  - lia.
  - destruct (Nat.eqb_spec len 0) as [-> | Hlen]; [lia |].
    assert (Nat.div2 len < len)%nat by (apply Nat.lt_div2; lia).
    generalize dependent (Nat.div2 len). intros half Hhalf.
    destruct (comp val (nth (first + half) v d)).
    + specialize (IH first half). lia.
    + specialize (IH (first + half + 1)%nat (len - half - 1)%nat). lia.
Qed.

Lemma upper_bound_le : (Std.upper_bound comp d v val <= length v)%nat.
Proof.
  unfold Std.upper_bound.
  pose proof (upper_bound_loop_le (length v) 0 (length v)). lia.
Qed.

Hypothesis Hsorted :
  forall i j, (i <= j < length v)%nat -> key (nth i v d) <= key (nth j v d).

Lemma upper_bound_loop_spec (fuel first len : nat) :
  (len <= fuel)%nat ->
  (first + len <= length v)%nat ->
  (forall i, (i < first)%nat -> key (nth i v d) <= val) ->
  (forall i, (first + len <= i < length v)%nat -> val < key (nth i v d)) ->
  let r := Std.upper_bound_loop comp d v val fuel first len in
  (forall i, (i < r)%nat -> key (nth i v d) <= val) /\
  (forall i, (r <= i < length v)%nat -> val < key (nth i v d)).
Proof.
  revert first len. induction fuel as [| fuel IH]; intros first len Hfuel Hin Hlo Hhi; cbn [Std.upper_bound_loop].
  - assert (len = 0%nat) by lia. subst. split; auto.
    intros i Hi. apply Hhi. lia.
  - destruct (Nat.eqb_spec len 0) as [-> | Hlen].
    + split; auto. intros i Hi. apply Hhi. lia.
    + assert (Hhalf : (Nat.div2 len < len)%nat) by (apply Nat.lt_div2; lia).
      generalize dependent (Nat.div2 len). intros half Hhalf.
      destruct (Z.ltb_spec val (key (nth (first + half) v d))) as [Hm | Hm];
        cbv beta iota zeta.
      * apply IH; try lia; auto.
        intros i Hi.
        apply Z.lt_le_trans with (key (nth (first + half) v d)); [exact Hm |].
        apply Hsorted. lia.
      * apply IH; try lia.
        -- intros i Hi.
           apply Z.le_trans with (key (nth (first + half) v d)); [| exact Hm].
           apply Hsorted. lia.
        -- intros i Hi. apply Hhi. lia.
Qed.

Lemma upper_bound_spec :
  let r := Std.upper_bound comp d v val in
  (r <= length v)%nat /\
  (forall i, (i < r)%nat -> key (nth i v d) <= val) /\
  (forall i, (r <= i < length v)%nat -> val < key (nth i v d)).
Proof.
  split; [apply upper_bound_le |].
  unfold Std.upper_bound.
  apply upper_bound_loop_spec; try lia.
Qed.

End StdFacts.

Lemma is_sorted_Z (v : list Z) :
  Std.is_sorted Z.ltb v = true <->
  (forall i j, (i <= j < length v)%nat -> nth i v 0 <= nth j v 0).
Proof. exact (is_sorted_key (fun z => z) 0 v). Qed.

Lemma upper_bound_Z (v : list Z) (val : Z) :
  Std.is_sorted Z.ltb v = true ->
  let r := Std.upper_bound (fun value x => value <? x) 0 v val in
  (r <= length v)%nat /\
  (forall i, (i < r)%nat -> nth i v 0 <= val) /\
  (forall i, (r <= i < length v)%nat -> val < nth i v 0).
Proof.
  intros Hs. apply (upper_bound_spec (fun z => z) 0 val v).
  apply is_sorted_Z. exact Hs.
Qed.

Lemma is_sorted_false (v : list Z) :
  Std.is_sorted Z.ltb v = false <->
  exists j, (S j < length v)%nat /\ nth (S j) v 0 < nth j v 0.
Proof.
  induction v as [| x tl IH]; cbn [Std.is_sorted].
  - split; [discriminate | intros (j & Hj & _); simpl in Hj; lia].
  - destruct tl as [| y tl'].
    + split; [discriminate | intros (j & Hj & _); simpl in Hj; lia].
    + destruct (Z.ltb_spec y x) as [Hlt | Hge].
      * split; [| reflexivity]. intros _. exists 0%nat. simpl. split; [lia | exact Hlt].
      * rewrite IH. split.
        -- intros (j & Hj & Hlt). exists (S j). simpl in *. split; [lia | exact Hlt].
        -- intros (j & Hj & Hlt). destruct j as [| j'].
           ++ simpl in Hlt. lia.
           ++ exists j'. simpl in *. split; [lia | exact Hlt].
Qed.

(** ** The block window and the record loop *)

Lemma block_buf_Some (data : list byte) (e : Index1Entry) (buf : list byte) :
  0 < index2Size e ->
  block_buf data e = Some buf <->
  (0 <= to_streamoff (index2Offset e) /\
   to_streamoff (index2Offset e) + Z.of_nat (Z.to_nat (index2Size e))
     <= Z.of_nat (length data) /\
   buf = firstn (Z.to_nat (index2Size e))
                (skipn (Z.to_nat (to_streamoff (index2Offset e))) data)).
Proof.
  intros Hsize.
  unfold block_buf, Stream.ReadFully, Stream.seekg, Stream.clear, stream_on. simpl.
  destruct (Z.ltb_spec (to_streamoff (index2Offset e)) 0) as [Hneg | Hpos]; simpl.
  { split; [discriminate | lia]. }
  destruct (Nat.eqb_spec (Z.to_nat (index2Size e)) 0) as [H0 | _]; [lia |].
  destruct (Z.leb_spec (to_streamoff (index2Offset e) + Z.of_nat (Z.to_nat (index2Size e)))
                       (Z.of_nat (length data))) as [Hin | Hout]; simpl.
  - split.
    + intros H. inversion H. auto.
    + intros (_ & _ & ->). reflexivity.
  - split; [discriminate | lia].
Qed.

Lemma block_buf_None (data : list byte) (e : Index1Entry) :
  0 < index2Size e ->
  block_buf data e = None <->
  (to_streamoff (index2Offset e) < 0 \/
   Z.of_nat (length data)
     < to_streamoff (index2Offset e) + Z.of_nat (Z.to_nat (index2Size e))).
Proof.
  intros Hsize.
  unfold block_buf, Stream.ReadFully, Stream.seekg, Stream.clear, stream_on. simpl.
  destruct (Z.ltb_spec (to_streamoff (index2Offset e)) 0) as [Hneg | Hpos]; simpl.
  { split; [lia | reflexivity]. }
  destruct (Nat.eqb_spec (Z.to_nat (index2Size e)) 0) as [H0 | _]; [lia |].
  destruct (Z.leb_spec (to_streamoff (index2Offset e) + Z.of_nat (Z.to_nat (index2Size e)))
                       (Z.of_nat (length data))) as [Hin | Hout]; simpl.
  - split; [discriminate | lia].
  - split; [lia | reflexivity].
Qed.

(** Reading a block through the engine's stream reads the window
    [block_buf] describes, whatever the stream's position and flags were. *)
Lemma read_block_stream (s : ifstream) (off : Z) (n : nat) :
  is_open s = true ->
  let r := Stream.ReadFully (Stream.seekg (Stream.clear s) off) n in
  fst r = fst (Stream.ReadFully
                 (Stream.seekg (Stream.clear (stream_on (fdata s))) off) n)
  /\ is_open (snd r) = true /\ fdata (snd r) = fdata s.
Proof.
  destruct s as [o data p f]. simpl. intros ->.
  unfold Stream.ReadFully, Stream.seekg, Stream.clear, stream_on. simpl.
  destruct (off <? 0); simpl; auto.
  destruct (Nat.eqb n 0); simpl; auto.
  destruct (off + Z.of_nat n <=? Z.of_nat (length data)); simpl; auto.
Qed.

Lemma nth_push_back_old {A} (v : list A) (x d : A) (j : nat) :
  (j < length v)%nat -> nth j (Std.push_back v x) d = nth j v d.
Proof. intros H. unfold Std.push_back. apply app_nth1. exact H. Qed.

Lemma nth_push_back_new {A} (v : list A) (x d : A) :
  nth (length v) (Std.push_back v x) d = x.
Proof. unfold Std.push_back. rewrite app_nth2, Nat.sub_diag by lia. reflexivity. Qed.

Lemma length_push_back {A} (v : list A) (x : A) :
  length (Std.push_back v x) = S (length v).
Proof. unfold Std.push_back. rewrite length_app. simpl. lia. Qed.

Section Loop.
Variables (buf : list byte) (startRva startLine : Z).

Lemma decode_loop_spec (n : nat) :
  forall (i : nat) (cur : Z) (dec : DecodedBlock),
    length (rvas dec) = i -> length (lines dec) = i ->
    (i <> 0%nat -> cur = nth (i - 1) (rvas dec) 0) ->
    let d := decode_loop n buf startRva startLine i (16 + 8 * i) cur dec in
    length (rvas d) = (i + n)%nat /\ length (lines d) = (i + n)%nat /\
    (forall j, (j < i)%nat ->
               nth j (rvas d) 0 = nth j (rvas dec) 0 /\
               nth j (lines d) 0 = nth j (lines dec) 0) /\
    (forall j, (i <= j < i + n)%nat ->
               nth j (rvas d) 0
               = wrap64 ((if Nat.eqb j 0 then startRva else nth (j - 1) (rvas d) 0)
                         + addrDelta_of buf j) /\
               nth j (lines d) 0
               = (if Nat.eqb j 0 then first_value buf startLine else rawValue_of buf j)).
Proof.
  induction n as [| n IH]; intros i cur dec Hr Hl Hcur; cbn [decode_loop].
  - cbv zeta. repeat split; try lia; intros j Hj; lia.
  - cbv zeta.
    set (cur' := if Nat.eqb i 0 then wrap64 (startRva + ReadLe32 buf (16 + 8 * i))
                 else wrap64 (cur + ReadLe32 buf (16 + 8 * i))).
    set (lines' := if Nat.eqb i 0 then _ else _).
    set (dec' := {| rvas := Std.push_back (rvas dec) cur'; lines := lines' |}).
    assert (Hr' : length (rvas dec') = (i + 1)%nat)
      by (simpl; rewrite length_push_back; lia).
    assert (Hl' : length (lines dec') = (i + 1)%nat).
    { simpl. unfold lines'. destruct (Nat.eqb i 0); rewrite length_push_back; lia. }
    assert (Hcur' : (i + 1 <> 0)%nat -> cur' = nth (i + 1 - 1) (rvas dec') 0).
    { intros _. simpl. replace (i + 1 - 1)%nat with (length (rvas dec)) by lia.
      rewrite nth_push_back_new. reflexivity. }
    specialize (IH (i + 1)%nat cur' dec' Hr' Hl' Hcur').
    replace (16 + 8 * (i + 1))%nat with (16 + 8 * i + 8)%nat in IH by lia.
    cbv zeta in IH.
    destruct IH as (IHr & IHl & IHold & IHnew).
    set (d := decode_loop n buf startRva startLine (i + 1) (16 + 8 * i + 8) cur' dec') in *.
    assert (Hold : forall j, (j < i)%nat ->
              nth j (rvas d) 0 = nth j (rvas dec) 0 /\
              nth j (lines d) 0 = nth j (lines dec) 0).
    { intros j Hj. destruct (IHold j) as [E1 E2]; [lia |].
      rewrite E1, E2. simpl. unfold lines'.
      destruct (Nat.eqb i 0); rewrite !nth_push_back_old by lia; auto. }
    repeat split; try lia.
    + apply Hold; assumption.
    + apply Hold; assumption.
    + destruct (Nat.eq_dec j i) as [-> | Hne]; [| apply IHnew; lia].
      destruct (IHold i) as [E1 _]; [lia |]. rewrite E1. simpl.
      rewrite <- Hr at 1. rewrite nth_push_back_new.
      unfold cur', addrDelta_of.
      destruct (Nat.eqb_spec i 0) as [-> | Hi0]; [reflexivity |].
      rewrite Hcur by assumption.
      destruct (Hold (i - 1)%nat) as [E3 _]; [lia |]. rewrite E3. reflexivity.
    + destruct (Nat.eq_dec j i) as [-> | Hne]; [| apply IHnew; lia].
      destruct (IHold i) as [_ E2]; [lia |]. rewrite E2. simpl.
      unfold lines', first_value, rawValue_of.
      destruct (Nat.eqb_spec i 0) as [-> | Hi0].
      * rewrite <- Hl at 1. rewrite nth_push_back_new. reflexivity.
      * rewrite <- Hl at 1. rewrite nth_push_back_new. reflexivity.
Qed.
End Loop.

(** The decoded block of a buffer, record by record. *)
Lemma decode_records_spec (buf : list byte) :
  let d := decode_records buf in
  let n := Z.to_nat (recordCount_of buf) in
  length (rvas d) = n /\ length (lines d) = n /\
  (forall j, (j < n)%nat ->
             nth j (rvas d) 0
             = wrap64 ((if Nat.eqb j 0 then ReadLe64 buf 0 else nth (j - 1) (rvas d) 0)
                       + addrDelta_of buf j) /\
             nth j (lines d) 0
             = (if Nat.eqb j 0 then first_value buf (ReadLe32 buf 8)
                else rawValue_of buf j)).
Proof.
  cbv zeta. unfold decode_records.
  pose proof (decode_loop_spec buf (ReadLe64 buf 0) (ReadLe32 buf 8)
                (Z.to_nat (recordCount_of buf)) 0 (ReadLe64 buf 0) DecodedBlock_empty
                eq_refl eq_refl) as H.
  cbv zeta in H. simpl (16 + 8 * 0)%nat in H.
  destruct H as (Hr & Hl & _ & Hnew); [intros; lia |].
  repeat split; try assumption; apply Hnew; lia.
Qed.

Lemma decode_records_range (buf : list byte) (j : nat) :
  (j < length (rvas (decode_records buf)))%nat ->
  0 <= nth j (rvas (decode_records buf)) 0 < 2 ^ 64.
Proof.
  intros Hj. destruct (decode_records_spec buf) as (Hr & _ & Hnth).
  destruct (Hnth j) as [E _]; [lia |]. rewrite E.
  unfold wrap64. apply Z.mod_pos_bound. lia.
Qed.

(** Past the first record a sorted block has no wrap-around: each address is
    the exact sum. *)
Lemma decode_records_exact (buf : list byte) (j : nat) :
  Std.is_sorted Z.ltb (rvas (decode_records buf)) = true ->
  (0 < j < length (rvas (decode_records buf)))%nat ->
  nth j (rvas (decode_records buf)) 0
  = nth (j - 1) (rvas (decode_records buf)) 0 + addrDelta_of buf j.
Proof.
  intros Hs Hj.
  destruct (decode_records_spec buf) as (Hr & _ & Hnth).
  destruct (Hnth j) as [E _]; [lia |].
  destruct (Nat.eqb_spec j 0) as [? | _]; [lia |].
  pose proof (decode_records_range buf (j - 1)) as Hp.
  pose proof (decode_records_range buf j) as Hq.
  pose proof (ReadLe32_range buf (16 + 8 * j)) as Hd. fold (addrDelta_of buf j) in Hd.
  pose proof (proj1 (is_sorted_Z _) Hs (j - 1)%nat j) as Hle.
  set (a := nth (j - 1) (rvas (decode_records buf)) 0) in *.
  set (b := nth j (rvas (decode_records buf)) 0) in *.
  set (dl := addrDelta_of buf j) in *.
  assert (0 <= a < 2 ^ 64) by (apply Hp; lia).
  assert (a <= b) by (apply Hle; lia).
  unfold wrap64 in E.
  destruct (Z_lt_ge_dec (a + dl) (2 ^ 64)) as [Hsmall | Hbig].
  - rewrite Z.mod_small in E by lia. exact E.
  - assert (b = a + dl - 2 ^ 64).
    { rewrite E. symmetry. apply Z.mod_unique with 1; lia. }
    lia.
Qed.

(** ** Outcomes of the block decoder *)

Lemma wrap64_expected (buf : list byte) :
  wrap64 (16 + recordCount_of buf * 8) = 16 + recordCount_of buf * 8.
Proof.
  unfold wrap64, recordCount_of. pose proof (ReadLe32_range buf 12).
  apply Z.mod_small. lia.
Qed.

Lemma sorted_test (v : list Z) :
  negb (Std.empty v) && negb (Std.is_sorted Z.ltb v) = negb (Std.is_sorted Z.ltb v).
Proof. destruct v; reflexivity. Qed.

Lemma decode_buf_cases (buf : list byte) (e : Index1Entry) :
  (index2Size e <> 16 + recordCount_of buf * 8 /\ decode_buf buf e = inl msg_count)
  \/ (index2Size e = 16 + recordCount_of buf * 8 /\
      Std.is_sorted Z.ltb (rvas (decode_records buf)) = false /\
      decode_buf buf e = inl msg_sorted)
  \/ (index2Size e = 16 + recordCount_of buf * 8 /\
      Std.is_sorted Z.ltb (rvas (decode_records buf)) = true /\
      decode_buf buf e = inr (decode_records buf)).
Proof.
  unfold decode_buf. rewrite wrap64_expected, sorted_test.
  destruct (Z.eqb_spec (16 + recordCount_of buf * 8) (index2Size e)) as [E | E]; cbn [negb].
  - destruct (Std.is_sorted Z.ltb (rvas (decode_records buf))); cbn [negb]; auto.
  - left. split; [congruence | reflexivity].
Qed.

Lemma decode_block_inr (data : list byte) (e : Index1Entry) (b : DecodedBlock) :
  decode_block data e = inr b ->
  16 <= index2Size e /\
  exists buf, block_buf data e = Some buf /\
              index2Size e = 16 + recordCount_of buf * 8 /\
              b = decode_records buf /\
              Std.is_sorted Z.ltb (rvas b) = true.
Proof.
  unfold decode_block.
  destruct (Z.ltb_spec (index2Size e) 16) as [Hlt | Hge]; [discriminate |].
  destruct (block_buf data e) as [buf |]; [| discriminate].
  intros H. split; [lia |]. exists buf. split; [reflexivity |].
  destruct (decode_buf_cases buf e) as [(_ & E) | [(_ & _ & E) | (Hc & Hs & E)]];
    rewrite E in H; inversion H; subst; auto.
Qed.

Lemma decoded_shape (data : list byte) (e : Index1Entry) (b : DecodedBlock) :
  decode_block data e = inr b ->
  length (lines b) = length (rvas b) /\
  (forall j k, (j <= k < length (rvas b))%nat -> nth j (rvas b) 0 <= nth k (rvas b) 0).
Proof.
  intros H. apply decode_block_inr in H.
  destruct H as (_ & buf & _ & _ & -> & Hs).
  destruct (decode_records_spec buf) as (Hr & Hl & _).
  split; [congruence |]. apply is_sorted_Z. exact Hs.
Qed.

(** The four ways a block fails to decode. *)
Lemma decode_block_cases (data : list byte) (e : Index1Entry) :
  let off := to_streamoff (index2Offset e) in
  let failing :=
    index2Size e < 16
    \/ (off < 0 \/ Z.of_nat (length data) < off + index2Size e)
    \/ (exists buf, block_buf data e = Some buf /\
                    index2Size e <> 16 + recordCount_of buf * 8)
    \/ (exists buf, block_buf data e = Some buf /\
                    exists j, (S j < length (rvas (decode_records buf)))%nat /\
                              nth (S j) (rvas (decode_records buf)) 0
                              < nth j (rvas (decode_records buf)) 0) in
  (failing /\ exists msg, decode_block data e = inl msg /\
                          In msg [msg_small; msg_read; msg_count; msg_sorted])
  \/ (~ failing /\ exists buf, block_buf data e = Some buf /\
                               decode_block data e = inr (decode_records buf)).
Proof.
  cbv zeta. unfold decode_block.
  destruct (Z.ltb_spec (index2Size e) 16) as [Hsmall | Hbig].
  { left. split; [auto |]. exists msg_small. split; [reflexivity | simpl; auto]. }
  assert (Hsz : Z.of_nat (Z.to_nat (index2Size e)) = index2Size e) by lia.
  destruct (block_buf data e) as [buf |] eqn:Hbuf.
  2:{ left. split.
      - right. left. apply block_buf_None in Hbuf; [| lia]. rewrite Hsz in Hbuf.
        exact Hbuf.
      - exists msg_read. split; [reflexivity | simpl; auto]. }
  assert (Hpos : 0 < index2Size e) by lia.
  pose proof (proj1 (block_buf_Some data e buf Hpos) Hbuf) as (Hoff & Hend & _).
  rewrite Hsz in Hend.
  destruct (decode_buf_cases buf e) as [(Hc & D) | [(Hc & Hs & D) | (Hc & Hs & D)]];
    rewrite D.
  - left. split.
    + right. right. left. exists buf. auto.
    + exists msg_count. split; [reflexivity | simpl; auto].
  - left. split.
    + right. right. right. exists buf. split; [reflexivity |].
      apply is_sorted_false. exact Hs.
    + exists msg_sorted. split; [reflexivity | simpl; auto 6].
  - right. split.
    + intros [H | [H | [(buf' & Hb' & H) | (buf' & Hb' & H)]]]; try lia.
      * inversion Hb'; subst. contradiction.
      * inversion Hb'; subst. apply is_sorted_false in H. congruence.
    + exists buf. auto.
Qed.

(** ** [LoadDecodedBlock] against the file image *)

Section Engine.
Variable fs : FileSystem.

Lemma EnsureIndex2Open_open (error : ptr string) (this : RvaIndexLookup) :
  is_open (index2Stream_ this) = true ->
  EnsureIndex2Open fs error this = (true, error, this).
Proof. intros H. unfold EnsureIndex2Open. rewrite H. reflexivity. Qed.

Lemma LoadDecodedBlock_warm (i : Z) (b0 : DecodedBlock) (error : ptr string)
      (this : RvaIndexLookup) :
  is_open (index2Stream_ this) = true ->
  i < Z.of_nat (length (table this)) ->
  cachedBlockIndex_ this = i ->
  LoadDecodedBlock fs i (Some b0) error this
  = (true, Some (cachedBlock_ this), error, this).
Proof.
  intros Hopen Hi Hc. unfold LoadDecodedBlock. simpl is_null. cbv iota.
  unfold table in Hi.
  destruct (Z.leb_spec (Z.of_nat (length (index1Entries_ this))) i); [lia |].
  rewrite EnsureIndex2Open_open by assumption.
  rewrite Hc, Z.eqb_refl. reflexivity.
Qed.

Lemma LoadDecodedBlock_cold (i : nat) (b0 : DecodedBlock) (error : ptr string)
      (this : RvaIndexLookup) :
  is_open (index2Stream_ this) = true ->
  (i < length (table this))%nat ->
  cachedBlockIndex_ this <> Z.of_nat i ->
  exists s,
    is_open s = true /\ fdata s = image this /\
    LoadDecodedBlock fs (Z.of_nat i) (Some b0) error this
    = match block_at this i with
      | inl msg => (false, Some b0, SetError error msg, set_index2Stream s this)
      | inr b => (true, Some b, error, set_cache (Z.of_nat i) b (set_index2Stream s this))
      end.
Proof.
  intros Hopen Hi Hc. unfold LoadDecodedBlock. simpl is_null. cbv iota.
  unfold table in Hi.
  destruct (Z.leb_spec (Z.of_nat (length (index1Entries_ this))) (Z.of_nat i)); [lia |].
  rewrite EnsureIndex2Open_open by assumption.
  destruct (Z.eqb_spec (cachedBlockIndex_ this) (Z.of_nat i)); [contradiction |].
  rewrite Nat2Z.id.
  unfold block_at, decode_block, entry_at, table, image.
  set (e := nth i (index1Entries_ this) Index1Entry_default).
  destruct (index2Size e <? 16).
  - exists (index2Stream_ this). repeat split; auto.
    destruct this; reflexivity.
  - cbv zeta.
    pose proof (read_block_stream (index2Stream_ this)
                  (to_streamoff (index2Offset e)) (Z.to_nat (index2Size e)) Hopen) as R.
    cbv zeta in R. destruct R as (R1 & R2 & R3).
    unfold block_buf.
    destruct (Stream.ReadFully
                (Stream.seekg (Stream.clear (index2Stream_ this))
                              (to_streamoff (index2Offset e)))
                (Z.to_nat (index2Size e))) as [r s] eqn:ER.
    simpl in R1, R2, R3. rewrite <- R1.
    exists s. split; [exact R2 |]. split; [exact R3 |].
    destruct r as [buf |]; [| reflexivity].
    unfold decode_buf, decode_records, recordCount_of. simpl store.
    destruct (negb (wrap64 (16 + ReadLe32 buf 12 * 8) =? index2Size e)); [reflexivity |].
    destruct (negb (Std.empty _) && negb (Std.is_sorted Z.ltb _)); reflexivity.
Qed.

(** ** The invariant of a loaded engine *)

Lemma same_index_refl (this : RvaIndexLookup) : same_index this this.
Proof. repeat split. Qed.

Lemma same_index_trans (a b c : RvaIndexLookup) :
  same_index a b -> same_index b c -> same_index a c.
Proof.
  intros (T1 & I1 & L1) (T2 & I2 & L2). repeat split; congruence.
Qed.

Lemma LoadDecodedBlock_Inv (i : nat) (b0 : DecodedBlock) (error : ptr string)
      (this : RvaIndexLookup) :
  Inv this ->
  (i < length (table this))%nat ->
  exists this',
    Inv this' /\ same_index this this' /\
    LoadDecodedBlock fs (Z.of_nat i) (Some b0) error this
    = match block_at this i with
      | inl msg => (false, Some b0, SetError error msg, this')
      | inr b => (true, Some b, error, this')
      end.
Proof.
  intros [Hopen Hne Hsize Hsorted Hcache] Hi.
  destruct (Z.eq_dec (cachedBlockIndex_ this) (Z.of_nat i)) as [Hc | Hc].
  - exists this. split; [constructor; assumption |]. split; [apply same_index_refl |].
    rewrite LoadDecodedBlock_warm by (auto; lia).
    destruct Hcache as [Hmax | [Hrange Hblock]]; [lia |].
    rewrite Hc, Nat2Z.id in Hblock. rewrite Hblock. reflexivity.
  - destruct (LoadDecodedBlock_cold i b0 error this Hopen Hi Hc) as (s & Hs1 & Hs2 & E).
    rewrite E. clear E.
    destruct (block_at this i) as [msg | b] eqn:Hb.
    + exists (set_index2Stream s this). split; [| split; [| reflexivity]].
      * constructor; auto.
        destruct Hcache as [Hmax | [Hrange Hblock]]; [left; auto | right].
        split; [exact Hrange |].
        unfold block_at, image, entry_at, table in *. simpl. rewrite Hs2. exact Hblock.
      * repeat split. exact Hs2.
    + exists (set_cache (Z.of_nat i) b (set_index2Stream s this)).
      split; [| split; [| reflexivity]].
      * constructor; auto.
        right. split; [unfold table in *; simpl; lia |].
        unfold block_at, image, entry_at, table in *. simpl.
        rewrite Nat2Z.id, Hs2. exact Hb.
      * repeat split. exact Hs2.
Qed.

Lemma block_at_same (a b : RvaIndexLookup) (i : nat) :
  same_index a b -> block_at b i = block_at a i.
Proof.
  intros (T & I & _). unfold block_at, entry_at. rewrite T, I. reflexivity.
Qed.

(** A query on a loaded engine computes [find_pure] of the table and the
    file image, and leaves a loaded engine over the same index. *)
Lemma Find_Inv (queryRva out : Z) (this : RvaIndexLookup) :
  Inv this ->
  exists this',
    Inv this' /\ same_index this this' /\
    FindClosestLowerOrEqualLine fs queryRva (Some out) this
    = (find_pure (table this) (image this) queryRva out, this').
Proof.
  intros HI.
  unfold FindClosestLowerOrEqualLine, find_pure. simpl is_null. rewrite orb_false_l.
  fold (table this).
  destruct (Std.empty (table this));
    [exists this; split; [exact HI | split; [apply same_index_refl | reflexivity]] |].
  destruct (queryRva <? startRva (hd Index1Entry_default (table this)));
    [exists this; split; [exact HI | split; [apply same_index_refl | reflexivity]] |].
  cbv zeta.
  pose proof (upper_bound_le startRva Index1Entry_default queryRva (table this)) as Hit.
  set (it := Std.upper_bound _ Index1Entry_default (table this) queryRva) in *.
  destruct (Nat.eqb_spec it 0) as [Hz | Hnz];
    [exists this; split; [exact HI | split; [apply same_index_refl | reflexivity]] |].
  replace (Z.of_nat it - 1) with (Z.of_nat (it - 1)) by lia.
  destruct (LoadDecodedBlock_Inv (it - 1) DecodedBlock_empty (Some "") this HI)
    as (this1 & HI1 & S1 & E1); [lia |].
  rewrite E1. clear E1.
  fold (entry_at this (it - 1)). fold (block_at this (it - 1)).
  destruct (block_at this (it - 1)) as [msg | block] eqn:Hb.
  { exists this1. auto. }
  destruct (floorInBlock queryRva block (Some out)) as [[|] o] eqn:Hfloor.
  { exists this1. auto. }
  replace (Z.of_nat (it - 1) =? 0) with (Nat.eqb (it - 1) 0)
    by (destruct (Nat.eqb_spec (it - 1) 0), (Z.eqb_spec (Z.of_nat (it - 1)) 0);
        auto; lia).
  destruct (Nat.eqb_spec (it - 1) 0) as [Hfirst | Hprev].
  { exists this1. auto. }
  replace (Z.of_nat (it - 1) - 1) with (Z.of_nat (it - 1 - 1)) by lia.
  destruct (LoadDecodedBlock_Inv (it - 1 - 1) DecodedBlock_empty (Some "") this1 HI1)
    as (this2 & HI2 & S2 & E2).
  { destruct S1 as (T1 & _). rewrite T1. lia. }
  rewrite E2. clear E2.
  rewrite (block_at_same this this1) by assumption.
  fold (entry_at this (it - 1 - 1)). fold (block_at this (it - 1 - 1)).
  assert (S12 : same_index this this2) by (eapply same_index_trans; eauto).
  assert (Ho : o = Some out).
  { unfold floorInBlock in Hfloor.
    destruct (Std.empty (rvas block)); [inversion Hfloor; auto |].
    destruct (Nat.eqb _ 0); inversion Hfloor; auto. }
  subst o.
  destruct (block_at this (it - 1 - 1)) as [msg | pb].
  { exists this2. auto. }
  destruct (Std.empty (lines pb)); exists this2; auto.
Qed.
End Engine.

(** ** [Load] *)

Section LoadFacts.
Variable fs : FileSystem.

Lemma Load_reset_fields (this : RvaIndexLookup) :
  let r := Load_reset this in
  index1Entries_ r = [] /\ index2Path_ r = "" /\ totalDumpLines_ r = 0 /\
  is_open (index2Stream_ r) = false /\ index2OpenAttempted_ r = false /\
  lastError_ r = "" /\
  cachedBlockIndex_ r = SIZE_MAX /\ cachedBlock_ r = DecodedBlock_empty.
Proof.
  unfold Load_reset. destruct this as [t p n s a l ci cb]. simpl.
  destruct (is_open s) eqn:E; simpl; repeat split; auto.
  unfold Stream.close. rewrite E. reflexivity.
Qed.

Lemma EnsureIndex2Open_frame (error error' : ptr string) (b : bool)
      (this this' : RvaIndexLookup) :
  EnsureIndex2Open fs error this = (b, error', this') ->
  index1Entries_ this' = index1Entries_ this /\
  index2Path_ this' = index2Path_ this /\
  totalDumpLines_ this' = totalDumpLines_ this /\
  cachedBlockIndex_ this' = cachedBlockIndex_ this /\
  cachedBlock_ this' = cachedBlock_ this.
Proof.
  unfold EnsureIndex2Open. cbv zeta.
  destruct (is_open (index2Stream_ this)).
  { intros H; inversion H; subst; auto. }
  destruct (index2OpenAttempted_ this).
  { intros H; inversion H; subst; auto. }
  destruct (failbit _); intros H; inversion H; subst; simpl; auto.
Qed.

Lemma Load_index2_false (index2Path : string) (error error' : ptr string)
      (this this' : RvaIndexLookup) :
  Load_index2 fs index2Path error this = (false, error', this') ->
  index1Entries_ this' = [] /\ index2Path_ this' = "" /\
  cachedBlockIndex_ this' = cachedBlockIndex_ this /\
  cachedBlock_ this' = cachedBlock_ this.
Proof.
  unfold Load_index2, Load_fail. cbv zeta.
  destruct (EnsureIndex2Open fs error (set_index2Path index2Path this))
    as [[b e1] t1] eqn:E.
  apply EnsureIndex2Open_frame in E. simpl in E.
  destruct E as (_ & _ & _ & C1 & C2).
  destruct b.
  2:{ intros H; inversion H; subst; simpl; auto. }
  repeat match goal with
         | |- context [match ?x with _ => _ end] => destruct x eqn:?
         end;
    intros H; inversion H; subst; simpl; auto;
    repeat match goal with
           | H : context [match ?x with _ => _ end] |- _ => destruct x eqn:?
           end;
    match goal with
    | H : _ = inl _ |- _ => inversion H
    | H : _ = inr _ |- _ => inversion H
    end; subst; simpl; auto.
Qed.

Lemma Load_index2_true (index2Path : string) (error error' : ptr string)
      (this this' : RvaIndexLookup) :
  is_open (index2Stream_ this) = false ->
  index2OpenAttempted_ this = false ->
  Load_index2 fs index2Path error this = (true, error', this') ->
  exists i2,
    fs index2Path = Some i2 /\
    error' = error /\
    index1Entries_ this' = index1Entries_ this /\
    fdata (index2Stream_ this') = i2 /\
    is_open (index2Stream_ this') = true /\
    cachedBlockIndex_ this' = cachedBlockIndex_ this /\
    cachedBlock_ this' = cachedBlock_ this /\
    Std.equal Byte.eqb kIndex2Magic i2 = true /\
    supported_version (ReadLe16 i2 4) = true /\
    ReadLe32 i2 8 = Z.of_nat (length (index1Entries_ this)) /\
    totalDumpLines_ this'
    = (if kVersion2 <=? ReadLe16 i2 4 then ReadLe32 i2 12 else totalDumpLines_ this).
Proof.
  intros Hopen Hatt.
  unfold Load_index2, Load_fail, EnsureIndex2Open. cbv zeta.
  destruct this as [t p n s a l ci cb].
  fields_in Hopen. fields_in Hatt. fields.
  subst a. rewrite Hopen.
  unfold Stream.open. rewrite Hopen.
  destruct (fs index2Path) as [i2 |] eqn:Hfs;
    fields;
    [| intros H; inversion H].
  unfold Stream.seekg, Stream.ReadFully.
  fields.
  change (0 <? 0) with false. cbv iota.
  fields. change (Nat.eqb 12 0) with false. cbv iota.
  change (Z.of_nat 12) with 12. change (0 + 12) with 12. change (Z.to_nat 0) with 0%nat.
  cbn [skipn].
  destruct (Z.leb_spec 12 (Z.of_nat (length i2))) as [H12 | H12];
    [| intros H; inversion H].
  assert (Hmagic : Std.equal Byte.eqb kIndex2Magic (firstn 12 i2)
                   = Std.equal Byte.eqb kIndex2Magic i2).
  { do 12 (destruct i2 as [| ? i2]; [simpl in H12; lia |]). reflexivity. }
  rewrite Hmagic.
  pose proof (ReadLe16_window i2 0 12 4) as E16. cbn [skipn] in E16.
  pose proof (ReadLe32_window i2 0 12 8) as E32. cbn [skipn] in E32.
  rewrite E16, E32 by lia. change (0 + 4)%nat with 4%nat. change (0 + 8)%nat with 8%nat.
  destruct (Std.equal Byte.eqb kIndex2Magic i2) eqn:Hm; cbn [negb];
    [| intros H; inversion H].
  destruct (supported_version (ReadLe16 i2 4)) eqn:Hver; cbn [negb];
    [| intros H; inversion H].
  fields.
  change (Z.of_nat 4) with 4. change (Z.to_nat 12) with 12%nat.
  change (Nat.eqb 4 0) with false. cbv iota.
  destruct (kVersion2 <=? ReadLe16 i2 4) eqn:Hv2.
  - destruct (Z.leb_spec (12 + 4) (Z.of_nat (length i2))) as [H16 | H16];
      [| intros H; inversion H].
    pose proof (ReadLe32_window i2 12 4 0) as Et. change (12 + 0)%nat with 12%nat in Et.
    rewrite Et by lia.
    fields.
    destruct (Z.eqb_spec (ReadLe32 i2 8) (Z.of_nat (length t))); cbn [negb];
      intros H; inversion H; subst.
    exists i2. simpl. rewrite Hv2. repeat split; auto.
  - fields.
    destruct (Z.eqb_spec (ReadLe32 i2 8) (Z.of_nat (length t))); cbn [negb];
      intros H; inversion H; subst.
    exists i2. simpl. rewrite Hv2. repeat split; auto.
Qed.

Lemma Load_true (index1Path index2Path : string) (error error' : ptr string)
      (this0 this : RvaIndexLookup) :
  Load fs index1Path index2Path error this0 = (true, error', this) ->
  exists entries i2,
    Load_index1 fs index1Path = inr entries /\
    fs index2Path = Some i2 /\
    error' = error /\
    entries <> [] /\
    routing_sorted entries /\
    table this = entries /\
    image this = i2 /\
    is_open (index2Stream_ this) = true /\
    cachedBlockIndex_ this = SIZE_MAX /\
    cachedBlock_ this = DecodedBlock_empty /\
    Std.equal Byte.eqb kIndex2Magic i2 = true /\
    supported_version (ReadLe16 i2 4) = true /\
    ReadLe32 i2 8 = Z.of_nat (length entries) /\
    totalDumpLines_ this
    = (if kVersion2 <=? ReadLe16 i2 4 then ReadLe32 i2 12 else 0).
Proof.
  unfold Load. cbv zeta.
  destruct (Load_reset_fields this0) as (R1 & R2 & R3 & R4 & R5 & R6 & R7 & R8).
  destruct (Load_index1 fs index1Path) as [msg | entries]; [intros H; inversion H |].
  simpl index1Entries_.
  destruct (Std.empty entries) eqn:Hempty; [intros H; inversion H |].
  destruct (Std.is_sorted _ entries) eqn:Hsorted; simpl; [| intros H; inversion H].
  intros H.
  apply Load_index2_true in H; [| simpl; assumption ..].
  destruct H as (i2 & Hfs & He & Ht & Hd & Ho & Hci & Hcb & Hm & Hv & Hc & Htot).
  simpl in Ht, Hci, Hcb, Hc, Htot.
  exists entries, i2. unfold table, image.
  repeat split; try assumption; try congruence.
  - intros ->. discriminate.
  - intros i j Hij.
    apply (proj1 (is_sorted_key startRva Index1Entry_default entries) Hsorted). exact Hij.
Qed.

Lemma Load_false (index1Path index2Path : string) (error : ptr string)
      (this0 : RvaIndexLookup) :
  let r := Load fs index1Path index2Path error this0 in
  fst (fst r) = false ->
  index1Entries_ (snd r) = [] /\ index2Path_ (snd r) = "" /\
  cachedBlockIndex_ (snd r) = SIZE_MAX /\ cachedBlock_ (snd r) = DecodedBlock_empty.
Proof.
  cbv zeta. unfold Load. cbv zeta.
  destruct (Load_reset_fields this0) as (R1 & R2 & R3 & R4 & R5 & R6 & R7 & R8).
  destruct (Load_index1 fs index1Path) as [msg | entries]; [simpl; auto |].
  simpl index1Entries_.
  destruct (Std.empty entries) eqn:Hempty.
  { destruct entries; [| discriminate]. simpl. auto. }
  destruct (Std.is_sorted _ entries) eqn:Hsorted; simpl; [| auto].
  destruct (Load_index2 fs index2Path error (set_index1Entries entries (Load_reset this0)))
    as [[b e'] t'] eqn:E.
  simpl. intros ->.
  apply Load_index2_false in E. simpl in E.
  destruct E as (E1 & E2 & E3 & E4). repeat split; congruence.
Qed.

Lemma Load_Inv (index1Path index2Path : string) (error error' : ptr string)
      (this0 this : RvaIndexLookup) :
  Load fs index1Path index2Path error this0 = (true, error', this) ->
  Inv this.
Proof.
  intros H. apply Load_true in H.
  destruct H as (entries & i2 & _ & _ & _ & Hne & Hs & Ht & _ & Ho & Hci & _ & _ & _ & Hc & _).
  constructor.
  - exact Ho.
  - rewrite Ht. exact Hne.
  - rewrite Ht, <- Hc. pose proof (ReadLe32_range i2 8). unfold SIZE_MAX. lia.
  - rewrite Ht. exact Hs.
  - left. exact Hci.
Qed.

Lemma Loaded_Inv (this : RvaIndexLookup) : Loaded fs this -> Inv this.
Proof.
  induction 1 as [p1 p2 e this0 e' this H | this q out _ IH].
  - eapply Load_Inv; eauto.
  - destruct out as [v |].
    + destruct (Find_Inv fs q v this IH) as (this' & HI & _ & E).
      rewrite E. exact HI.
    + exact IH.
Qed.

(** In every state of an object's life the table is empty (nothing is
    loaded) or the engine is a loaded one. *)
Lemma Reachable_Inv (this : RvaIndexLookup) :
  Reachable fs this -> table this = [] \/ Inv this.
Proof.
  induction 1 as [| this p1 p2 e _ _ | this q out _ IH].
  - left. reflexivity.
  - destruct (Load fs p1 p2 e this) as [[b e'] this'] eqn:E. simpl.
    destruct b.
    + right. eapply Load_Inv; eauto.
    + left. pose proof (Load_false p1 p2 e this) as F. cbv zeta in F.
      rewrite E in F. simpl in F. apply F. reflexivity.
  - destruct out as [v |]; [| exact IH].
    destruct IH as [Hnil | HI].
    + left. unfold FindClosestLowerOrEqualLine. unfold table in Hnil. rewrite Hnil.
      simpl. exact Hnil.
    + right. destruct (Find_Inv fs q v this HI) as (this' & HI' & _ & E).
      rewrite E. exact HI'.
Qed.
End LoadFacts.

(** ** The reported total is not an input of the query *)

Section Total.
Variable fs : FileSystem.

Lemma EnsureIndex2Open_total (n : Z) (error : ptr string) (this : RvaIndexLookup) :
  EnsureIndex2Open fs error (set_totalDumpLines n this)
  = let '(b, e, t) := EnsureIndex2Open fs error this in (b, e, set_totalDumpLines n t).
Proof.
  unfold EnsureIndex2Open. cbv zeta. fields.
  destruct (is_open (index2Stream_ this)); [reflexivity |].
  destruct (index2OpenAttempted_ this); [reflexivity |].
  destruct (failbit _); reflexivity.
Qed.

Lemma LoadDecodedBlock_total (n i : Z) (out : ptr DecodedBlock) (error : ptr string)
      (this : RvaIndexLookup) :
  LoadDecodedBlock fs i out error (set_totalDumpLines n this)
  = let '(b, o, e, t) := LoadDecodedBlock fs i out error this in
    (b, o, e, set_totalDumpLines n t).
Proof.
  unfold LoadDecodedBlock. fields.
  destruct (is_null out); [reflexivity |].
  destruct (_ <=? i); [reflexivity |].
  rewrite EnsureIndex2Open_total.
  destruct (EnsureIndex2Open fs error this) as [[b e] t].
  destruct b; [| reflexivity]. fields.
  destruct (cachedBlockIndex_ t =? i); [reflexivity |].
  cbv zeta.
  destruct (index2Size _ <? 16); [reflexivity |].
  destruct (Stream.ReadFully _ _) as [[buf |] s]; [| reflexivity]. fields.
  destruct (negb (_ =? _)); [reflexivity |].
  destruct (negb _ && negb _); reflexivity.
Qed.

Lemma Find_total (n q : Z) (out : ptr Z) (this : RvaIndexLookup) :
  FindClosestLowerOrEqualLine fs q out (set_totalDumpLines n this)
  = let '(r, t) := FindClosestLowerOrEqualLine fs q out this in
    (r, set_totalDumpLines n t).
Proof.
  unfold FindClosestLowerOrEqualLine. fields.
  destruct (is_null out || Std.empty (index1Entries_ this)); [reflexivity |].
  destruct (q <? _); [reflexivity |].
  cbv zeta.
  destruct (Nat.eqb _ 0); [reflexivity |].
  rewrite LoadDecodedBlock_total.
  destruct (LoadDecodedBlock fs _ _ _ this) as [[[b o] e] t].
  destruct b; [| reflexivity].
  destruct (floorInBlock _ _ _) as [[|] o']; [reflexivity |].
  destruct (_ =? 0); [reflexivity |].
  rewrite LoadDecodedBlock_total.
  destruct (LoadDecodedBlock fs _ _ _ t) as [[[b2 o2] e2] t2].
  destruct b2; [| reflexivity].
  destruct (Std.empty _); reflexivity.
Qed.
End Total.

(** ** Routing and the floor inside a block *)

Lemma last_as_nth {A} (l : list A) (d : A) :
  last l d = nth (length l - 1) l d.
Proof.
  induction l as [| x [| y tl] IH]; try reflexivity.
  change (last (x :: y :: tl) d) with (last (y :: tl) d). rewrite IH.
  simpl. rewrite Nat.sub_0_r. reflexivity.
Qed.

Lemma hd_as_nth {A} (l : list A) (d : A) : hd d l = nth 0 l d.
Proof. destruct l; reflexivity. Qed.

Lemma empty_false {A} (l : list A) : l <> [] -> Std.empty l = false.
Proof. destruct l; [contradiction | reflexivity]. Qed.

Lemma nonempty_length {A} (l : list A) : l <> [] -> (0 < length l)%nat.
Proof. destruct l; [contradiction | simpl; lia]. Qed.

Section Routing.
Variable t : list Index1Entry.
Hypothesis Hsorted : routing_sorted t.
Local Abbreviation key i := (startRva (nth i t Index1Entry_default)) (only parsing).

Lemma route_index (q : Z) (i : nat) :
  (i < length t)%nat -> key i <= q ->
  (forall j, (i < j < length t)%nat -> q < key j) ->
  Std.upper_bound (fun value entry => value <? startRva entry)
                  Index1Entry_default t q = S i.
Proof.
  intros Hi Hle Hgt.
  destruct (upper_bound_spec startRva Index1Entry_default q t Hsorted)
    as (Hr & Hlo & Hhi).
  set (r := Std.upper_bound _ Index1Entry_default t q) in *.
  assert (i < r)%nat.
  { destruct (Nat.lt_ge_cases i r) as [? | Hge]; [assumption |].
    specialize (Hhi i). lia. }
  destruct (Nat.lt_ge_cases (S i) r) as [Hbig | ?]; [| lia].
  specialize (Hlo (S i) Hbig). specialize (Hgt (S i)). lia.
Qed.

Lemma route_exists (q : Z) :
  t <> [] -> key 0 <= q ->
  exists i, (i < length t)%nat /\ key i <= q /\
            forall j, (i < j < length t)%nat -> q < key j.
Proof.
  intros Hne H0.
  destruct (upper_bound_spec startRva Index1Entry_default q t Hsorted)
    as (Hr & Hlo & Hhi).
  set (r := Std.upper_bound _ Index1Entry_default t q) in *.
  pose proof (nonempty_length t Hne) as Hlen.
  assert (0 < r)%nat.
  { destruct (Nat.lt_ge_cases 0 r) as [? | Hge]; [assumption |].
    specialize (Hhi 0%nat). lia. }
  exists (r - 1)%nat. split; [lia |]. split.
  - apply Hlo. lia.
  - intros j Hj. apply Hhi. lia.
Qed.

Lemma find_pure_below (data : list byte) (q out : Z) :
  q < key 0 -> find_pure t data q out = (false, Some out).
Proof.
  intros H. unfold find_pure.
  destruct (Std.empty t); [reflexivity |].
  rewrite hd_as_nth.
  destruct (Z.ltb_spec q (key 0)); [reflexivity | lia].
Qed.

Lemma find_pure_routed (data : list byte) (q out : Z) (i : nat) :
  (i < length t)%nat -> key i <= q ->
  (forall j, (i < j < length t)%nat -> q < key j) ->
  find_pure t data q out
  = match decode_block data (nth i t Index1Entry_default) with
    | inl _ => (false, Some out)
    | inr block =>
        match floorInBlock q block (Some out) with
        | (true, o) => (true, o)
        | (false, o) =>
            if Nat.eqb i 0 then (false, o)
            else
              match decode_block data (nth (i - 1) t Index1Entry_default) with
              | inl _ => (false, o)
              | inr pb =>
                  if Std.empty (lines pb) then (false, o)
                  else (true, Some (last (lines pb) 0))
              end
        end
    end.
Proof.
  intros Hi Hle Hgt. unfold find_pure.
  assert (Hne : t <> []) by (intros ->; simpl in Hi; lia).
  rewrite (empty_false t Hne), hd_as_nth.
  assert (key 0 <= key i) by (apply Hsorted; lia).
  destruct (Z.ltb_spec q (key 0)); [lia |].
  cbv zeta. rewrite (route_index q i Hi Hle Hgt).
  cbn [Nat.eqb]. rewrite Nat.sub_succ, Nat.sub_0_r. reflexivity.
Qed.
End Routing.

Lemma floorInBlock_spec (q out : Z) (b : DecodedBlock) :
  Std.is_sorted Z.ltb (rvas b) = true ->
  (floorInBlock q b (Some out) = (false, Some out) /\
   forall j, (j < length (rvas b))%nat -> q < nth j (rvas b) 0)
  \/ (exists j, (j < length (rvas b))%nat /\
                floorInBlock q b (Some out) = (true, Some (nth j (lines b) 0)) /\
                nth j (rvas b) 0 <= q /\
                forall j', (j < j' < length (rvas b))%nat -> q < nth j' (rvas b) 0).
Proof.
  intros Hs. unfold floorInBlock. cbv zeta.
  destruct (upper_bound_Z (rvas b) q Hs) as (Hr & Hlo & Hhi).
  set (bit := Std.upper_bound _ 0 (rvas b) q) in *.
  destruct (rvas b) as [| x tl] eqn:Hrv.
  { left. split; [reflexivity |]. intros j Hj. simpl in Hj. lia. }
  cbn [Std.empty].
  destruct (Nat.eqb_spec bit 0) as [Hz | Hnz].
  - left. split; [reflexivity |]. intros j Hj. apply Hhi. lia.
  - right. exists (bit - 1)%nat. split; [lia |]. split; [reflexivity |]. split.
    + apply Hlo. lia.
    + intros j' Hj'. apply Hhi. lia.
Qed.

Lemma floorInBlock_out (q out : Z) (b : DecodedBlock) :
  floorInBlock q b (Some out)
  = (let r := floorInBlock q b (Some 0) in if fst r then r else (false, Some out)).
Proof.
  unfold floorInBlock. cbv zeta.
  destruct (Std.empty (rvas b)); [reflexivity |].
  destruct (Nat.eqb _ 0); reflexivity.
Qed.

Lemma floorInBlock_Some (q out : Z) (b : DecodedBlock) :
  exists v, snd (floorInBlock q b (Some out)) = Some v.
Proof.
  unfold floorInBlock. cbv zeta.
  destruct (Std.empty (rvas b)); [eexists; reflexivity |].
  destruct (Nat.eqb _ 0); eexists; reflexivity.
Qed.

Lemma find_pure_out (t : list Index1Entry) (data : list byte) (q out : Z) :
  find_pure t data q out
  = (let r := find_pure t data q 0 in if fst r then r else (false, Some out)).
Proof.
  unfold find_pure. cbv zeta.
  destruct (Std.empty t); [reflexivity |].
  destruct (q <? _); [reflexivity |].
  destruct (Nat.eqb _ 0); [reflexivity |].
  destruct (decode_block data _) as [msg | block]; [reflexivity |].
  rewrite (floorInBlock_out q out block). cbv zeta.
  destruct (floorInBlock q block (Some 0)) as [[|] o] eqn:E; [reflexivity |].
  cbn [fst].
  assert (o = Some 0) as ->.
  { unfold floorInBlock in E. destruct (Std.empty (rvas block)); [inversion E; auto |].
    destruct (Nat.eqb _ 0); inversion E; auto. }
  destruct (Nat.eqb _ 0); [reflexivity |].
  destruct (decode_block data _) as [msg | pb]; [reflexivity |].
  destruct (Std.empty (lines pb)); reflexivity.
Qed.

Lemma find_pure_Some (t : list Index1Entry) (data : list byte) (q out : Z) :
  exists v, snd (find_pure t data q out) = Some v.
Proof.
  unfold find_pure. cbv zeta.
  destruct (Std.empty t); [eexists; reflexivity |].
  destruct (q <? _); [eexists; reflexivity |].
  destruct (Nat.eqb _ 0); [eexists; reflexivity |].
  destruct (decode_block data _) as [msg | block]; [eexists; reflexivity |].
  destruct (floorInBlock_Some q out block) as (v & Hv).
  destruct (floorInBlock q block (Some out)) as [[|] o]; simpl in Hv; subst;
    [eexists; reflexivity |].
  destruct (Nat.eqb _ 0); [eexists; reflexivity |].
  destruct (decode_block data _) as [msg | pb]; [eexists; reflexivity |].
  destruct (Std.empty (lines pb)); eexists; reflexivity.
Qed.

Lemma Inv_cold (this : RvaIndexLookup) : Inv this -> Inv (cold this).
Proof.
  intros [Ho Hn Hz Hs Hc]. constructor; auto. left. reflexivity.
Qed.

(** ** The floor over the whole index *)

Lemma stored_functional (this : RvaIndexLookup) (i j : nat) (k k' v v' : Z) :
  stored this i j k v -> stored this i j k' v' -> k = k' /\ v = v'.
Proof.
  intros (_ & b & Hb & _ & Hk & Hv) (_ & b' & Hb' & _ & Hk' & Hv').
  rewrite Hb in Hb'. inversion Hb'; subst. auto.
Qed.

Lemma stored_bounds (this : RvaIndexLookup) (i j : nat) (k v : Z) :
  partitioned this -> stored this i j k v ->
  route_key this i <= k /\
  ((S i < length (table this))%nat -> k <= route_key this (S i)).
Proof.
  intros HP (Hi & b & Hb & Hj & Hk & _).
  destruct (HP i Hi) as (b' & Hb' & _ & Hbound).
  rewrite Hb in Hb'. inversion Hb'; subst b'.
  apply Hbound. rewrite <- Hk. apply nth_In. exact Hj.
Qed.

Lemma find_floor (this : RvaIndexLookup) (q v0 : Z) :
  Inv this -> partitioned this ->
  (find_pure (table this) (image this) q v0 = (false, Some v0) /\
   forall k, stored_key this k -> q < k)
  \/ (exists i j k v,
         stored this i j k v /\ k <= q /\
         find_pure (table this) (image this) q v0 = (true, Some v) /\
         forall i' j' k' v',
           stored this i' j' k' v' -> k' <= q -> pos_le i' j' i j /\ k' <= k).
Proof.
  intros HI HP.
  pose proof (inv_sorted this HI) as Hs. pose proof (inv_nonempty this HI) as Hne.
  assert (Hmono : forall a c, (a <= c < length (table this))%nat ->
                              route_key this a <= route_key this c) by exact Hs.
  destruct (Z_lt_le_dec q (route_key this 0)) as [Hbelow | H0].
  { left. split; [apply find_pure_below; exact Hbelow |].
    intros k (i & j & v & St).
    destruct (stored_bounds this i j k v HP St) as [Hlo _].
    destruct St as (Hi & _). specialize (Hmono 0%nat i). lia. }
  destruct (route_exists (table this) Hs q Hne H0) as (i0 & Hi0 & Hle & Hgt).
  rewrite (find_pure_routed (table this) Hs (image this) q v0 i0 Hi0 Hle Hgt).
  destruct (HP i0 Hi0) as (b & Hb & Hbne & Hbound).
  fold (entry_at this i0). fold (block_at this i0). rewrite Hb.
  destruct (decoded_shape _ _ _ Hb) as (Hlen & Hsb).
  destruct (decode_block_inr _ _ _ Hb) as (_ & _ & _ & _ & _ & Hisb).
  assert (Hlater : forall i' j' k' v', stored this i' j' k' v' -> k' <= q -> (i' <= i0)%nat).
  { intros i' j' k' v' St Hk'.
    destruct (Nat.le_gt_cases i' i0) as [? | Hbig]; [assumption |].
    destruct (stored_bounds this i' j' k' v' HP St) as [Hlo _].
    destruct St as (Hi' & _). specialize (Hgt i').
    unfold route_key, entry_at in *. lia. }
  assert (Hearlier : forall i' j' k' v' c,
             stored this i' j' k' v' -> (i' < c)%nat -> (c < length (table this))%nat ->
             k' <= route_key this c).
  { intros i' j' k' v' c St Hlt Hc.
    destruct (stored_bounds this i' j' k' v' HP St) as [_ Hhi].
    specialize (Hmono (S i') c). lia. }
  destruct (floorInBlock_spec q v0 b Hisb) as [(F & Habove) | (j & Hj & F & Hjq & Hafter)];
    rewrite F.
  - destruct (Nat.eqb_spec i0 0) as [Hfirst | Hprev].
    + left. split; [reflexivity |].
      intros k (i' & j' & v' & St).
      destruct (Z_lt_le_dec q k) as [? | Hk]; [assumption | exfalso].
      pose proof (Hlater i' j' k v' St Hk) as Hi'.
      assert (i' = i0) by lia. subst i'.
      destruct St as (_ & b' & Hb' & Hj' & Hk' & _).
      rewrite Hb in Hb'. inversion Hb'; subst b'.
      specialize (Habove j' Hj'). lia.
    + right.
      assert (Hip : (i0 - 1 < length (table this))%nat) by lia.
      destruct (HP (i0 - 1)%nat Hip) as (pb & Hpb & Hpbne & Hpbound).
      fold (entry_at this (i0 - 1)). fold (block_at this (i0 - 1)). rewrite Hpb.
      destruct (decoded_shape _ _ _ Hpb) as (Hlenp & Hsp).
      pose proof (nonempty_length _ Hpbne) as Hposp.
      assert (Hlne : lines pb <> []).
      { intros E. rewrite E in Hlenp. simpl in Hlenp. lia. }
      rewrite (empty_false _ Hlne), last_as_nth, Hlenp.
      set (jl := (length (rvas pb) - 1)%nat).
      assert (Hjl : (jl < length (rvas pb))%nat) by (unfold jl; lia).
      assert (Stl : stored this (i0 - 1) jl (nth jl (rvas pb) 0) (nth jl (lines pb) 0)).
      { split; [exact Hip |]. exists pb. auto. }
      destruct (Hpbound (nth jl (rvas pb) 0) (nth_In _ _ Hjl)) as [Hlo Hhi].
      replace (S (i0 - 1)) with i0 in Hhi by lia.
      unfold route_key, entry_at in Hle, Hlo, Hhi, Hearlier.
      exists (i0 - 1)%nat, jl, (nth jl (rvas pb) 0), (nth jl (lines pb) 0).
      split; [exact Stl |]. split; [lia |]. split; [reflexivity |].
      intros i' j' k' v' St Hk'.
      pose proof (Hlater i' j' k' v' St Hk') as Hi'.
      destruct (Nat.eq_dec i' i0) as [-> | Hne0].
      { exfalso. destruct St as (_ & b' & Hb' & Hj' & Hkk & _).
        rewrite Hb in Hb'. inversion Hb'; subst b'.
        specialize (Habove j' Hj'). lia. }
      destruct (Nat.eq_dec i' (i0 - 1)) as [-> | Hne1].
      * destruct St as (_ & b' & Hb' & Hj' & Hkk & _).
        rewrite Hpb in Hb'. inversion Hb'; subst b'.
        split; [right; split; [reflexivity | unfold jl; lia] |].
        rewrite <- Hkk. apply Hsp. unfold jl. lia.
      * split; [left; lia |].
        pose proof (Hearlier i' j' k' v' (i0 - 1)%nat St) as Hk1. lia.
  - right. exists i0, j, (nth j (rvas b) 0), (nth j (lines b) 0).
    split; [split; [exact Hi0 | exists b; auto] |].
    split; [exact Hjq |]. split; [reflexivity |].
    intros i' j' k' v' St Hk'.
    pose proof (Hlater i' j' k' v' St Hk') as Hi'.
    destruct (Hbound (nth j (rvas b) 0) (nth_In _ _ Hj)) as [Hlo _].
    unfold route_key, entry_at in Hle, Hlo, Hearlier.
    destruct (Nat.eq_dec i' i0) as [-> | Hne0].
    + destruct St as (_ & b' & Hb' & Hj' & Hkk & _).
      rewrite Hb in Hb'. inversion Hb'; subst b'.
      assert (j' <= j)%nat.
      { destruct (Nat.le_gt_cases j' j) as [? | Hbig]; [assumption |].
        specialize (Hafter j'). lia. }
      split; [right; split; [reflexivity | assumption] |].
      rewrite <- Hkk. apply Hsb. lia.
    + split; [left; lia |].
      pose proof (Hearlier i' j' k' v' i0 St) as Hk1. lia.
Qed.

(** ** Facts about the concrete index files *)

Lemma length_fs_good : length (table (Synth.loaded Examples.fs_good)) = 2%nat.
Proof. vm_compute. reflexivity. Qed.

Lemma Loaded_fs_good : Loaded Examples.fs_good (Synth.loaded Examples.fs_good).
Proof.
  apply (Loaded_Load Examples.fs_good "index1.bin" "index2.bin" (Some "")
                     RvaIndexLookup_new (Some "")).
  vm_compute. reflexivity.
Defined.

Lemma Reachable_fs_good : Reachable Examples.fs_good (Synth.loaded Examples.fs_good).
Proof.
  exact (Reachable_Load Examples.fs_good RvaIndexLookup_new "index1.bin" "index2.bin"
                        (Some "") (Reachable_new Examples.fs_good)).
Defined.

Lemma partitioned_fs_good : partitioned (Synth.loaded Examples.fs_good).
Proof.
  intros i Hi. rewrite length_fs_good in *.
  destruct i as [| [| i]]; [| | lia].
  - exists {| rvas := [10; 40]; lines := [5; 2] |}.
    split; [vm_compute; reflexivity |]. split; [discriminate |].
    intros k [<- | [<- | []]]; (split; [| intros _]); vm_compute; discriminate.
  - exists {| rvas := [60; 70]; lines := [3; 4] |}.
    split; [vm_compute; reflexivity |]. split; [discriminate |].
    intros k [<- | [<- | []]]; (split; [| intros ?; lia]); vm_compute; discriminate.
Qed.

Lemma stored_fs_good (i j : nat) (k v : Z) :
  stored (Synth.loaded Examples.fs_good) i j k v ->
  In (i, j, k, v) [(0%nat, 0%nat, 10, 5); (0%nat, 1%nat, 40, 2);
                   (1%nat, 0%nat, 60, 3); (1%nat, 1%nat, 70, 4)].
Proof.
  intros (Hi & b & Hb & Hj & Hk & Hv).
  rewrite length_fs_good in Hi.
  destruct i as [| [| i]]; [| | lia];
    vm_compute in Hb; inversion Hb; subst b; simpl in Hj;
    (destruct j as [| [| j]]; [| | lia]); simpl in Hk, Hv; subst; simpl; auto.
Qed.

Lemma length_fs_overlap : length (table (Synth.loaded Examples.fs_overlap)) = 2%nat.
Proof. vm_compute. reflexivity. Qed.

Lemma stored_fs_overlap (i j : nat) (k v : Z) :
  stored (Synth.loaded Examples.fs_overlap) i j k v ->
  In (i, j, k, v) [(0%nat, 0%nat, 10, 1); (0%nat, 1%nat, 100, 2); (1%nat, 0%nat, 60, 3)].
Proof.
  intros (Hi & b & Hb & Hj & Hk & Hv).
  rewrite length_fs_overlap in Hi.
  destruct i as [| [| i]]; [| | lia];
    vm_compute in Hb; inversion Hb; subst b; simpl in Hj.
  - destruct j as [| [| j]]; [| | lia]; simpl in Hk, Hv; subst; simpl; auto.
  - destruct j as [| j]; [| lia]; simpl in Hk, Hv; subst; simpl; auto.
Qed.

(** ** The run of a query *)

Lemma snd_bind {A B : Type} (m : Run.run A) (f : A -> Run.run B) :
  snd (Run.bind m f)
  = match snd m with
    | Run.Returned a => snd (f a)
    | Run.Undefined => Run.Undefined
    end.
Proof. unfold Run.bind. destruct (snd m); reflexivity. Qed.

(** With a valid pointer, the run of the lambda returns what [floorInBlock]
    returns, and stores only then. *)
Lemma floorInBlock_run_valid (q : Z) (b : DecodedBlock) (v0 : Z) :
  snd (floorInBlock_run q b (Some v0)) = Run.Returned (floorInBlock q b (Some v0)).
Proof.
  unfold floorInBlock_run, floorInBlock.
  destruct (Std.empty (rvas b)); [reflexivity |].
  rewrite snd_bind. cbn [Run.emit snd]. cbv zeta.
  destruct (Nat.eqb _ 0); reflexivity.
Qed.

(** Every run returns, and returns the result of
    [FindClosestLowerOrEqualLine]. *)
Lemma Find_run_returns (fs : FileSystem) (q : Z) (outLine : ptr Z)
      (this : RvaIndexLookup) :
  snd (FindClosestLowerOrEqualLine_run fs q outLine this)
  = Run.Returned (FindClosestLowerOrEqualLine fs q outLine this).
Proof.
  unfold FindClosestLowerOrEqualLine_run, FindClosestLowerOrEqualLine.
  rewrite snd_bind. cbn [Run.emit snd].
  destruct outLine as [v0 |]; [| reflexivity].
  cbn [is_null orb].
  rewrite snd_bind. cbn [Run.emit snd].
  destruct (Std.empty (index1Entries_ this)); [reflexivity |].
  rewrite snd_bind. cbn [Run.emit snd].
  destruct (q <? _); [reflexivity |].
  rewrite snd_bind. cbn [Run.emit snd]. cbv zeta.
  destruct (Nat.eqb _ 0); [reflexivity |].
  rewrite snd_bind. cbn [Run.emit snd].
  destruct (LoadDecodedBlock fs _ _ _ this) as [[[ok1 o1] e1] t1].
  destruct ok1; [| reflexivity].
  rewrite snd_bind, floorInBlock_run_valid.
  destruct (floorInBlock q _ (Some v0)) as [[|] o] eqn:F; [reflexivity |].
  assert (Ho : o = Some v0).
  { unfold floorInBlock in F.
    destruct (Std.empty _); [inversion F; reflexivity |].
    destruct (Nat.eqb _ 0); inversion F; reflexivity. }
  subst o.
  destruct (_ =? 0); [reflexivity |].
  rewrite snd_bind. cbn [Run.emit snd].
  destruct (LoadDecodedBlock fs _ _ _ t1) as [[[ok2 o2] e2] t2].
  destruct ok2; [| reflexivity].
  cbv zeta. destruct (Std.empty _); reflexivity.
Qed.

(** The test of the pointer is the first step of every run. *)
Lemma Find_run_first (fs : FileSystem) (q : Z) (outLine : ptr Z)
      (this : RvaIndexLookup) :
  hd_error (fst (FindClosestLowerOrEqualLine_run fs q outLine this))
  = Some Run.TestOutLine.
Proof. reflexivity. Qed.

(** * Claims *)

(** C1 (amended).  On a loaded engine whose stored keys respect the routing
    partition (every block decodes, is non-empty, and its keys lie between
    its own routing key and the next one), a query [q]
    - reports not-found when every stored key is above [q];
    - returns the value stored with the greatest stored key [k <= q]; when
      that key is stored more than once, the value of its last record;
    - in particular returns the value of [q] itself when [q] is stored once,
    - and, for [k1 < q < k2] with [k1], [k2] stored and no stored key
      strictly between them, the value stored with [k1]. *)
Theorem floor_lookup (fs : FileSystem) (this : RvaIndexLookup) :
  Loaded fs this ->
  partitioned this ->
  forall q v0 : Z,
    let r := fst (FindClosestLowerOrEqualLine fs q (Some v0) this) in
    ((forall k, stored_key this k -> q < k) -> r = (false, Some v0)) /\
    (forall k, stored_key this k -> k <= q ->
               (forall k', stored_key this k' -> k' <= q -> k' <= k) ->
               exists i j v,
                 stored this i j k v /\
                 (forall i' j' v', stored this i' j' k v' -> pos_le i' j' i j) /\
                 r = (true, Some v)) /\
    (forall i j v, stored this i j q v ->
                   (forall i' j' v', stored this i' j' q v' -> i' = i /\ j' = j) ->
                   r = (true, Some v)) /\
    (forall k1 k2, stored_key this k1 -> stored_key this k2 -> k1 < q < k2 ->
                   (forall k', stored_key this k' -> k' <= k1 \/ k2 <= k') ->
                   exists i j v,
                     stored this i j k1 v /\
                     (forall i' j' v', stored this i' j' k1 v' -> pos_le i' j' i j) /\
                     r = (true, Some v)).
Proof.
  intros HL HP q v0. apply Loaded_Inv in HL.
  destruct (Find_Inv fs q v0 this HL) as (this' & _ & _ & E).
  cbv zeta. rewrite E. cbn [fst]. clear E this'.
  assert (Hgreatest :
            forall k, stored_key this k -> k <= q ->
                      (forall k', stored_key this k' -> k' <= q -> k' <= k) ->
                      exists i j v,
                        stored this i j k v /\
                        (forall i' j' v', stored this i' j' k v' -> pos_le i' j' i j) /\
                        find_pure (table this) (image this) q v0 = (true, Some v)).
  { intros k Hk Hkq Hmax.
    destruct (find_floor this q v0 HL HP)
      as [(_ & Habove) | (i & j & k0 & v & St & Hk0 & F & Hlast)].
    - specialize (Habove k Hk). lia.
    - assert (k0 <= k) by (apply Hmax; [exists i, j, v; exact St | exact Hk0]).
      destruct Hk as (i1 & j1 & v1 & St1).
      destruct (Hlast i1 j1 k v1 St1 Hkq) as [_ Hle].
      assert (k0 = k) by lia. subst k0.
      exists i, j, v. split; [exact St |]. split; [| exact F].
      intros i' j' v' St'. apply (Hlast i' j' k v' St' Hkq). }
  split; [| split; [exact Hgreatest | split]].
  - intros Habove.
    destruct (find_floor this q v0 HL HP)
      as [(F & _) | (i & j & k0 & v & St & Hk0 & _)]; [exact F |].
    specialize (Habove k0 (ex_intro _ i (ex_intro _ j (ex_intro _ v St)))). lia.
  - intros i j v St Huniq.
    destruct (Hgreatest q (ex_intro _ i (ex_intro _ j (ex_intro _ v St))))
      as (i1 & j1 & v1 & St1 & _ & F); [lia | intros; assumption |].
    destruct (Huniq i1 j1 v1 St1) as [-> ->].
    destruct (stored_functional this i j q q v v1 St St1) as [_ ->]. exact F.
  - intros k1 k2 H1 H2 Hq Hgap.
    apply Hgreatest; [exact H1 | lia |].
    intros k' Hk' Hk'q. destruct (Hgap k' Hk'); lia.
Qed.

(** C1, witness: on the partitioned index [fs_good] the query 65 returns the
    value stored with 60, the greatest stored key below it. *)
Lemma floor_lookup_witness :
  exists i j v,
    stored (Synth.loaded Examples.fs_good) i j 60 v /\
    (forall i' j' v', stored (Synth.loaded Examples.fs_good) i' j' 60 v' ->
                      pos_le i' j' i j) /\
    fst (FindClosestLowerOrEqualLine Examples.fs_good 65 (Some 0)
                                     (Synth.loaded Examples.fs_good))
    = (true, Some v).
Proof.
  apply (proj1 (proj2 (floor_lookup Examples.fs_good (Synth.loaded Examples.fs_good)
                         Loaded_fs_good partitioned_fs_good 65 0)) 60).
  - exists 1%nat, 0%nat, 3. split; [vm_compute; lia |].
    exists {| rvas := [60; 70]; lines := [3; 4] |}.
    split; [vm_compute; reflexivity |]. simpl. repeat split. lia.
  - lia.
  - intros k' (i & j & v & St) Hk'. apply stored_fs_good in St.
    destruct St as [E | [E | [E | [E | []]]]]; inversion E; subst; lia.
Defined.

(** C1, counterexample.  The files are accepted by [Load], the routing
    table [0; 50] is sorted and both blocks are structurally valid with
    sorted keys (10, 100 with values 1, 2, and 60 with value 3).  The key
    100 is stored once, with the value 2, but the query 100 returns 3; the
    greatest stored key below 55 is 10, with value 1, but the query 55
    returns 2. *)
Lemma floor_wrong_on_overlap :
  let this := Synth.loaded Examples.fs_overlap in
  fst (Synth.load Examples.fs_overlap) = (true, Some "") /\
  map startRva (table this) = [0; 50] /\
  block_at this 0 = inr {| rvas := [10; 100]; lines := [1; 2] |} /\
  block_at this 1 = inr {| rvas := [60]; lines := [3] |} /\
  stored this 0 1 100 2 /\
  (forall i j v, stored this i j 100 v -> i = 0%nat /\ j = 1%nat /\ v = 2) /\
  (forall i j k v, stored this i j k v -> k <= 55 -> k = 10 /\ v = 1) /\
  fst (FindClosestLowerOrEqualLine Examples.fs_overlap 100 (Some 0) this) = (true, Some 3) /\
  fst (FindClosestLowerOrEqualLine Examples.fs_overlap 55 (Some 0) this) = (true, Some 2).
Proof.
  cbv zeta.
  split; [vm_compute; reflexivity |]. split; [vm_compute; reflexivity |].
  split; [vm_compute; reflexivity |]. split; [vm_compute; reflexivity |].
  split; [| split; [| split; [| split; vm_compute; reflexivity]]].
  - split; [rewrite length_fs_overlap; lia |].
    exists {| rvas := [10; 100]; lines := [1; 2] |}.
    split; [vm_compute; reflexivity |]. simpl. repeat split. lia.
  - intros i j v St. apply stored_fs_overlap in St.
    destruct St as [E | [E | [E | []]]]; inversion E; subst; auto.
  - intros i j k v St Hk. apply stored_fs_overlap in St.
    destruct St as [E | [E | [E | []]]]; inversion E; subst; try lia; auto.
Qed.

(** C2 (amended).  On a loaded engine, let the query route to block [i]
    (the last routing entry with start key <= q) and let that block decode
    with every key above the query.  Then the query reports not-found when
    [i] is the first block; otherwise it returns the last value of block
    [i - 1] when that block decodes and holds at least one record, and
    reports not-found when block [i - 1] fails to decode or holds no
    record. *)
Theorem boundary_fallback (fs : FileSystem) (this : RvaIndexLookup) :
  Loaded fs this ->
  forall (q v0 : Z) (i : nat) (b : DecodedBlock),
    (i < length (table this))%nat ->
    route_key this i <= q ->
    (forall j, (i < j < length (table this))%nat -> q < route_key this j) ->
    block_at this i = inr b ->
    (forall k, In k (rvas b) -> q < k) ->
    fst (FindClosestLowerOrEqualLine fs q (Some v0) this)
    = if Nat.eqb i 0 then (false, Some v0)
      else match block_at this (i - 1) with
           | inl _ => (false, Some v0)
           | inr pb =>
               if Std.empty (lines pb) then (false, Some v0)
               else (true, Some (last (lines pb) 0))
           end.
Proof.
  intros HL q v0 i b Hi Hle Hgt Hb Hall.
  apply Loaded_Inv in HL.
  destruct (Find_Inv fs q v0 this HL) as (this' & _ & _ & E). rewrite E. cbn [fst].
  rewrite (find_pure_routed (table this) (inv_sorted this HL) (image this) q v0 i Hi Hle Hgt).
  unfold block_at, entry_at in *. rewrite Hb.
  destruct (decode_block_inr _ _ _ Hb) as (_ & _ & _ & _ & _ & Hs).
  destruct (floorInBlock_spec q v0 b Hs) as [(F & _) | (j & Hj & _ & Hjq & _)].
  - rewrite F. reflexivity.
  - specialize (Hall (nth j (rvas b) 0) (nth_In _ _ Hj)). lia.
Qed.

(** C2, witness: on [fs_good] the query 55 routes to block 1, whose keys all
    exceed it, and returns the last value of block 0. *)
Lemma boundary_fallback_witness :
  fst (FindClosestLowerOrEqualLine Examples.fs_good 55 (Some 0)
                                   (Synth.loaded Examples.fs_good))
  = (true, Some 2).
Proof.
  refine (boundary_fallback Examples.fs_good (Synth.loaded Examples.fs_good)
            Loaded_fs_good 55 0 1 {| rvas := [60; 70]; lines := [3; 4] |} _ _ _ _ _).
  - vm_compute. lia.
  - vm_compute. discriminate.
  - intros j Hj. rewrite length_fs_good in Hj. lia.
  - vm_compute. reflexivity.
  - intros k [<- | [<- | []]]; lia.
Defined.

(** C2, counterexample.  The files are accepted by [Load] and both blocks
    decode; the query 15 routes to block 1, whose only key 20 exceeds it;
    block 1 is not the first block, yet the query reports not-found, since
    block 0 holds no record. *)
Lemma fallback_misses_on_empty_block :
  let this := Synth.loaded Examples.fs_gap in
  fst (Synth.load Examples.fs_gap) = (true, Some "") /\
  map startRva (table this) = [0; 10] /\
  block_at this 0 = inr {| rvas := []; lines := [] |} /\
  block_at this 1 = inr {| rvas := [20]; lines := [3] |} /\
  fst (FindClosestLowerOrEqualLine Examples.fs_gap 15 (Some 0) this) = (false, Some 0).
Proof. vm_compute. repeat split. Qed.

(** A failed [Load] leaves an empty routing table, no path and a vacant
    cache slot, and every later query reports not-found. *)
Lemma failed_Load_clears_table (fs : FileSystem) (index1Path index2Path : string)
      (error : ptr string) (this0 : RvaIndexLookup) :
  let r := Load fs index1Path index2Path error this0 in
  fst (fst r) = false ->
  index1Entries_ (snd r) = [] /\ index2Path_ (snd r) = "" /\
  cachedBlockIndex_ (snd r) = SIZE_MAX /\ cachedBlock_ (snd r) = DecodedBlock_empty /\
  forall q out,
    FindClosestLowerOrEqualLine fs q out (snd r) = (false, out, snd r).
Proof.
  cbv zeta. intros H.
  pose proof (Load_false fs index1Path index2Path error this0) as F. cbv zeta in F.
  destruct (F H) as (E1 & E2 & E3 & E4).
  repeat split; try assumption.
  intros q out. unfold FindClosestLowerOrEqualLine. rewrite E1.
  cbn [Std.empty]. rewrite orb_true_r. reflexivity.
Qed.

(** C3.  [Load] on an index whose file 2 (version 2) declares two blocks and
    a total of 7 against a routing table of one entry: the call fails and
    the table is cleared, but [GetTotalDumpLines] reports 7, the value parsed
    from the rejected file, not the 0 of an object with no index. *)
Theorem failed_Load_keeps_total :
  let r := Load Examples.fs_mismatch "index1.bin" "index2.bin" (Some "")
                RvaIndexLookup_new in
  fst (fst r) = false /\
  snd (fst r) = Some "index1 entry count does not match index2 block count" /\
  index1Entries_ (snd r) = [] /\
  GetTotalDumpLines (snd r) = 7 /\
  GetTotalDumpLines RvaIndexLookup_new = 0.
Proof. vm_compute. repeat split. Qed.

(** C4 (amended).  On a loaded engine, for a structurally valid block
    (declared size at least 16 and equal to 16 + 8 * recordCount) that is
    read in full and passes the sortedness check, the decoder returns
    [recordCount] addresses and values: address 0 is startKey +
    addressDelta reduced modulo 2^64, value 0 is rawValue unless that is 0
    and startValue otherwise; every later address is the previous address
    plus its addressDelta (exactly: a wrap-around there would fail the
    sortedness check), and every later value is its rawValue. *)
Theorem decode_rule (fs : FileSystem) (this : RvaIndexLookup) (i : nat)
        (b0 : DecodedBlock) (error : ptr string) (buf : list byte) :
  Loaded fs this ->
  (i < length (table this))%nat ->
  block_buf (image this) (entry_at this i) = Some buf ->
  16 <= index2Size (entry_at this i) ->
  index2Size (entry_at this i) = 16 + recordCount_of buf * 8 ->
  Std.is_sorted Z.ltb (rvas (decode_records buf)) = true ->
  exists d this',
    LoadDecodedBlock fs (Z.of_nat i) (Some b0) error this = (true, Some d, error, this') /\
    Z.of_nat (length (rvas d)) = recordCount_of buf /\
    Z.of_nat (length (lines d)) = recordCount_of buf /\
    (0 < recordCount_of buf ->
     nth 0 (rvas d) 0 = (ReadLe64 buf 0 + addrDelta_of buf 0) mod 2 ^ 64 /\
     nth 0 (lines d) 0
     = (if rawValue_of buf 0 =? 0 then ReadLe32 buf 8 else rawValue_of buf 0)) /\
    (forall j, (0 < j)%nat -> Z.of_nat j < recordCount_of buf ->
               nth j (rvas d) 0 = nth (j - 1) (rvas d) 0 + addrDelta_of buf j /\
               nth j (lines d) 0 = rawValue_of buf j).
Proof.
  intros HL Hi Hbuf H16 Hcount Hsorted. apply Loaded_Inv in HL.
  destruct (LoadDecodedBlock_Inv fs i b0 error this HL Hi) as (this' & _ & _ & E).
  unfold block_at, decode_block in E. rewrite Hbuf in E.
  destruct (Z.ltb_spec (index2Size (entry_at this i)) 16); [lia |].
  destruct (decode_buf_cases buf (entry_at this i))
    as [(Hc & D) | [(Hc & Hs & D) | (Hc & Hs & D)]]; try congruence.
  rewrite D in E.
  exists (decode_records buf), this'. split; [exact E |].
  destruct (decode_records_spec buf) as (Hr & Hl & Hnth).
  pose proof (ReadLe32_range buf 12) as Hrc. fold (recordCount_of buf) in Hrc.
  split; [lia |]. split; [lia |]. split.
  - intros Hpos. destruct (Hnth 0%nat) as [E1 E2]; [lia |]. split; assumption.
  - intros j Hj Hjn. split.
    + apply decode_records_exact; [exact Hsorted | lia].
    + destruct (Hnth j) as [_ E2]; [lia |]. rewrite E2.
      destruct (Nat.eqb_spec j 0); [lia | reflexivity].
Qed.

(** C4, witness: block 0 of [fs_good] decodes to the keys 10, 40 with the
    values 5 (the header value, the raw value being 0) and 2. *)
Lemma decode_rule_witness :
  exists d this',
    LoadDecodedBlock Examples.fs_good 0 (Some DecodedBlock_empty) (Some "")
                     (Synth.loaded Examples.fs_good)
    = (true, Some d, Some "", this') /\
    nth 0 (rvas d) 0 = 10 /\ nth 0 (lines d) 0 = 5 /\
    nth 1 (rvas d) 0 = 40 /\ nth 1 (lines d) 0 = 2.
Proof.
  destruct (decode_rule Examples.fs_good (Synth.loaded Examples.fs_good) 0
              DecodedBlock_empty (Some "")
              (Synth.block_bytes (Synth.mk_block 0 5 [(10, 0); (30, 2)]))
              Loaded_fs_good)
    as (d & this' & E & _ & _ & H0 & Hj).
  - rewrite length_fs_good. lia.
  - vm_compute. reflexivity.
  - vm_compute. discriminate.
  - vm_compute. reflexivity.
  - vm_compute. reflexivity.
  - exists d, this'. split; [exact E |].
    destruct H0 as [A0 V0]; [vm_compute; reflexivity |].
    destruct (Hj 1%nat) as [A1 V1]; [lia | vm_compute; reflexivity |].
    change (1 - 1)%nat with 0%nat in A1.
    split; [rewrite A0; vm_compute; reflexivity |].
    split; [rewrite V0; vm_compute; reflexivity |].
    split; [rewrite A1, A0; vm_compute; reflexivity | rewrite V1; vm_compute; reflexivity].
Defined.

(** C4, counterexample.  A structurally valid block with start key 2^64 - 1
    and first address delta 1 decodes to the address 0, not to the sum
    2^64 of start key and delta. *)
Lemma first_address_wraps :
  let this := Synth.loaded Examples.fs_wrap in
  let buf := Synth.block_bytes (Synth.mk_block (2 ^ 64 - 1) 5 [(1, 7)]) in
  let d := {| rvas := [0]; lines := [7] |} in
  fst (Synth.load Examples.fs_wrap) = (true, Some "") /\
  block_buf (image this) (entry_at this 0) = Some buf /\
  16 <= index2Size (entry_at this 0) /\
  index2Size (entry_at this 0) = 16 + recordCount_of buf * 8 /\
  fst (LoadDecodedBlock Examples.fs_wrap 0 (Some DecodedBlock_empty) (Some "") this)
  = (true, Some d, Some "") /\
  ReadLe64 buf 0 = 2 ^ 64 - 1 /\ addrDelta_of buf 0 = 1 /\
  nth 0 (rvas d) 0 = 0 /\
  nth 0 (rvas d) 0 <> ReadLe64 buf 0 + addrDelta_of buf 0.
Proof.
  vm_compute. repeat split; discriminate.
Qed.

(** C5.  On a loaded engine and for a block index in range,
    [LoadDecodedBlock] fails exactly when the declared size is below 16, or
    the block's bytes are not all inside the file (negative offset, or the
    window runs past the end), or the declared size differs from
    16 + 8 * recordCount, or some decoded address is smaller than its
    predecessor.  A failing call leaves the caller's block and the cache slot
    untouched and reports one of the four messages, and a query that routes
    to the block reports not-found; a successful call returns the decoded
    records, which are then the content of the cache slot. *)
Theorem decode_fails_iff (fs : FileSystem) (this : RvaIndexLookup) (i : nat)
        (b0 : DecodedBlock) (err0 : string) :
  Loaded fs this ->
  (i < length (table this))%nat ->
  let e := entry_at this i in
  let off := to_streamoff (index2Offset e) in
  let r := LoadDecodedBlock fs (Z.of_nat i) (Some b0) (Some err0) this in
  let ok := fst (fst (fst r)) in
  (ok = false <->
   index2Size e < 16
   \/ (off < 0 \/ Z.of_nat (length (image this)) < off + index2Size e)
   \/ (exists buf, block_buf (image this) e = Some buf /\
                   index2Size e <> 16 + recordCount_of buf * 8)
   \/ (exists buf, block_buf (image this) e = Some buf /\
                   exists j, (S j < length (rvas (decode_records buf)))%nat /\
                             nth (S j) (rvas (decode_records buf)) 0
                             < nth j (rvas (decode_records buf)) 0))
  /\ (ok = false ->
      snd (fst (fst r)) = Some b0 /\
      cachedBlockIndex_ (snd r) = cachedBlockIndex_ this /\
      cachedBlock_ (snd r) = cachedBlock_ this /\
      (exists msg, snd (fst r) = Some msg /\
                   In msg [msg_small; msg_read; msg_count; msg_sorted]) /\
      (forall q v0,
          route_key this i <= q ->
          (forall j, (i < j < length (table this))%nat -> q < route_key this j) ->
          fst (FindClosestLowerOrEqualLine fs q (Some v0) this) = (false, Some v0)))
  /\ (ok = true ->
      exists buf, block_buf (image this) e = Some buf /\
                  snd (fst (fst r)) = Some (decode_records buf) /\
                  snd (fst r) = Some err0 /\
                  cachedBlockIndex_ (snd r) = Z.of_nat i /\
                  cachedBlock_ (snd r) = decode_records buf).
Proof.
  intros HL Hi e off r ok. apply Loaded_Inv in HL.
  pose proof HL as [Hopen Hne Hsize Hsorted Hcache].
  pose proof (decode_block_cases (image this) e) as Hcases. cbv zeta in Hcases.
  fold off in Hcases.
  assert (Hr : (block_at this i = inr (cachedBlock_ this) /\
                cachedBlockIndex_ this = Z.of_nat i /\
                r = (true, Some (cachedBlock_ this), Some err0, this))
               \/ exists s,
                   r = match block_at this i with
                       | inl msg => (false, Some b0, Some msg, set_index2Stream s this)
                       | inr b => (true, Some b, Some err0,
                                   set_cache (Z.of_nat i) b (set_index2Stream s this))
                       end).
  { destruct (Z.eq_dec (cachedBlockIndex_ this) (Z.of_nat i)) as [Hc | Hc].
    - left. destruct Hcache as [Hmax | [_ Hblock]]; [lia |].
      rewrite Hc, Nat2Z.id in Hblock. split; [exact Hblock |]. split; [exact Hc |].
      unfold r. apply LoadDecodedBlock_warm; auto. lia.
    - right. destruct (LoadDecodedBlock_cold fs i b0 (Some err0) this Hopen Hi Hc)
        as (s & _ & _ & E).
      exists s. exact E. }
  unfold block_at in Hr. fold e in Hr.
  destruct Hcases as [(Hfail & msg & D & Hmsg) | (Hok & buf & Hbuf & D)];
    rewrite D in Hr.
  - destruct Hr as [(Hb & _) | (s & Hr)]; [discriminate |].
    unfold ok. rewrite Hr. cbn [fst snd]. split; [| split].
    + split; auto.
    + intros _. split; [reflexivity |]. split; [reflexivity |]. split; [reflexivity |].
      split; [exists msg; auto |].
      intros q v0 Hle Hgt.
      destruct (Find_Inv fs q v0 this HL) as (this' & _ & _ & E). rewrite E. cbn [fst].
      rewrite (find_pure_routed (table this) Hsorted (image this) q v0 i Hi Hle Hgt).
      fold (entry_at this i). fold e. rewrite D. reflexivity.
    + discriminate.
  - assert (Hr' : exists t, r = (true, Some (decode_records buf), Some err0, t) /\
                            cachedBlockIndex_ t = Z.of_nat i /\
                            cachedBlock_ t = decode_records buf).
    { destruct Hr as [(Hb & Hc & Hr) | (s & Hr)].
      - inversion Hb as [Hcb]. exists this. rewrite Hr, <- Hcb. auto.
      - eexists. split; [exact Hr |]. split; reflexivity. }
    destruct Hr' as (t & Hr' & Hci & Hcb).
    unfold ok. rewrite Hr'. cbn [fst snd]. split; [| split].
    + split; [discriminate | intros H; contradiction].
    + discriminate.
    + intros _. exists buf. auto.
Qed.

(** C5, witness: block 0 of [fs_good] passes the four checks and is
    returned and cached. *)
Lemma decode_fails_iff_witness :
  let this := Synth.loaded Examples.fs_good in
  let r := LoadDecodedBlock Examples.fs_good 0 (Some DecodedBlock_empty) (Some "") this in
  exists buf, block_buf (image this) (entry_at this 0) = Some buf /\
              snd (fst (fst r)) = Some (decode_records buf) /\
              snd (fst r) = Some "" /\
              cachedBlockIndex_ (snd r) = 0 /\
              cachedBlock_ (snd r) = decode_records buf.
Proof.
  refine (proj2 (proj2 (decode_fails_iff Examples.fs_good (Synth.loaded Examples.fs_good)
                          0 DecodedBlock_empty "" Loaded_fs_good _)) _).
  - rewrite length_fs_good. lia.
  - vm_compute. reflexivity.
Defined.

(** C6.  For an index file 1 that parses to the table [t]: [Load] fails
    when [t] is empty, fails when some later entry has a strictly smaller
    start key than an earlier one, and otherwise (non-empty, ascending)
    goes on to the checks of index file 2. *)
Theorem routing_table_checks (fs : FileSystem) (index1Path index2Path : string)
        (error : ptr string) (this0 : RvaIndexLookup) (t : list Index1Entry) :
  Load_index1 fs index1Path = inr t ->
  (t = [] ->
   Load fs index1Path index2Path error this0
   = (false, SetError error "index1 has no entries",
      set_index1Entries [] (Load_reset this0))) /\
  ((exists i j, (i < j < length t)%nat /\
                startRva (nth j t Index1Entry_default)
                < startRva (nth i t Index1Entry_default)) ->
   Load fs index1Path index2Path error this0
   = (false, SetError error "index1 entries are not sorted by startRva",
      set_index1Entries [] (Load_reset this0))) /\
  (t <> [] -> routing_sorted t ->
   Load fs index1Path index2Path error this0
   = Load_index2 fs index2Path error (set_index1Entries t (Load_reset this0))).
Proof.
  intros H. unfold Load. rewrite H. cbv zeta. simpl index1Entries_.
  split; [| split].
  - intros ->. reflexivity.
  - intros (i & j & Hij & Hlt).
    destruct t as [| x t']; [simpl in Hij; lia |]. cbn [Std.empty].
    destruct (Std.is_sorted (fun a b => startRva a <? startRva b) (x :: t')) eqn:Hs.
    + pose proof (proj1 (is_sorted_key startRva Index1Entry_default _) Hs i j) as Hle.
      lia.
    + reflexivity.
  - intros Hne Hs.
    destruct t as [| x t']; [contradiction |]. cbn [Std.empty].
    rewrite (proj2 (is_sorted_key startRva Index1Entry_default (x :: t')) Hs).
    reflexivity.
Qed.

(** C6, witness: a table with the start keys 50, 0 is rejected. *)
Lemma routing_table_checks_witness :
  Load Examples.fs_unsorted "index1.bin" "index2.bin" (Some "") RvaIndexLookup_new
  = (false, Some "index1 entries are not sorted by startRva",
     set_index1Entries [] (Load_reset RvaIndexLookup_new)).
Proof.
  refine (proj1 (proj2 (routing_table_checks Examples.fs_unsorted "index1.bin" "index2.bin"
                          (Some "") RvaIndexLookup_new Examples.table_unsorted _)) _).
  - vm_compute. reflexivity.
  - exists 0%nat, 1%nat. simpl. lia.
Defined.

(** C7.  After a successful [Load], [GetTotalDumpLines] is 0 when the header
    of index file 2 declares version 1 and is the header's total field
    (the 32-bit word at offset 12) when it declares version 2 or 3; and a
    query neither reads nor changes the value: changing it commutes with
    [FindClosestLowerOrEqualLine]. *)
Theorem total_version_gating (fs : FileSystem) (index1Path index2Path : string)
        (error error' : ptr string) (this0 this : RvaIndexLookup) :
  Load fs index1Path index2Path error this0 = (true, error', this) ->
  exists i2,
    fs index2Path = Some i2 /\
    (ReadLe16 i2 4 = 1 -> GetTotalDumpLines this = 0) /\
    (ReadLe16 i2 4 = 2 \/ ReadLe16 i2 4 = 3 -> GetTotalDumpLines this = ReadLe32 i2 12) /\
    (forall n q out t,
        FindClosestLowerOrEqualLine fs q out (set_totalDumpLines n t)
        = let '(r, t') := FindClosestLowerOrEqualLine fs q out t in
          (r, set_totalDumpLines n t')).
Proof.
  intros H. apply Load_true in H.
  destruct H as (entries & i2 & _ & Hfs & _ & _ & _ & _ & _ & _ & _ & _ & _ & _ & _ & Htot).
  exists i2. split; [exact Hfs |]. unfold GetTotalDumpLines. rewrite Htot.
  split; [| split].
  - intros ->. reflexivity.
  - intros [-> | ->]; reflexivity.
  - intros n q out t. apply Find_total.
Qed.

(** C7, witness: the version 2 index [fs_good]. *)
Lemma total_version_gating_witness :
  exists i2,
    Examples.fs_good "index2.bin" = Some i2 /\
    (ReadLe16 i2 4 = 1 -> GetTotalDumpLines (Synth.loaded Examples.fs_good) = 0) /\
    (ReadLe16 i2 4 = 2 \/ ReadLe16 i2 4 = 3 ->
     GetTotalDumpLines (Synth.loaded Examples.fs_good) = ReadLe32 i2 12) /\
    (forall n q out t,
        FindClosestLowerOrEqualLine Examples.fs_good q out (set_totalDumpLines n t)
        = let '(r, t') := FindClosestLowerOrEqualLine Examples.fs_good q out t in
          (r, set_totalDumpLines n t')).
Proof.
  apply (total_version_gating Examples.fs_good "index1.bin" "index2.bin"
                              (Some "") (Some "") RvaIndexLookup_new).
  vm_compute. reflexivity.
Defined.

(** C8.  On a loaded engine the result of a query (flag and value written)
    does not depend on the cache slot: it is the result obtained with the
    slot emptied; and repeating the call, with the pointee as it was or as
    the first call left it, gives the same result again. *)
Theorem cache_transparency (fs : FileSystem) (this : RvaIndexLookup) :
  Loaded fs this ->
  forall (queryRva : Z) (outLine : ptr Z),
    let r := FindClosestLowerOrEqualLine fs queryRva outLine this in
    fst r = fst (FindClosestLowerOrEqualLine fs queryRva outLine (cold this)) /\
    fst (FindClosestLowerOrEqualLine fs queryRva outLine (snd r)) = fst r /\
    fst (FindClosestLowerOrEqualLine fs queryRva (snd (fst r)) (snd r)) = fst r.
Proof.
  intros HL q out. apply Loaded_Inv in HL. cbv zeta.
  destruct out as [v |]; [| repeat split].
  destruct (Find_Inv fs q v this HL) as (this1 & HI1 & (T1 & I1 & _) & E1).
  destruct (Find_Inv fs q v (cold this) (Inv_cold this HL)) as (this2 & _ & _ & E2).
  destruct (Find_Inv fs q v this1 HI1) as (this3 & _ & _ & E3).
  rewrite E1, E2. cbn [fst snd]. rewrite E3. cbn [fst]. rewrite T1, I1.
  split; [reflexivity |]. split; [reflexivity |].
  destruct (find_pure_Some (table this) (image this) q v) as (v' & Hv'). rewrite Hv'.
  destruct (Find_Inv fs q v' this1 HI1) as (this4 & _ & _ & E4).
  rewrite E4, T1, I1. cbn [fst].
  rewrite (find_pure_out _ _ q v'), (find_pure_out _ _ q v) in *. cbv zeta in *.
  destruct (find_pure (table this) (image this) q 0) as [[|] o]; cbn [fst snd] in *.
  - reflexivity.
  - inversion Hv'. reflexivity.
Qed.

(** C8, witness: the query 65 on [fs_good], repeated.  The state [this] is
    the one the first call leaves: the slot holds block 1, the block the
    query routes to, so the block request of the second call is served from
    the slot, while from [cold this] the block is read and decoded again. *)
Lemma cache_transparency_witness :
  let this := snd (FindClosestLowerOrEqualLine Examples.fs_good 65 (Some 0)
                     (Synth.loaded Examples.fs_good)) in
  (cachedBlockIndex_ this = 1 /\
   Z.of_nat (Std.upper_bound (fun value entry => value <? startRva entry)
                             Index1Entry_default (index1Entries_ this) 65) - 1 = 1 /\
   LoadDecodedBlock Examples.fs_good 1 (Some DecodedBlock_empty) (Some "") this
   = (true, Some (cachedBlock_ this), Some "", this) /\
   cachedBlockIndex_ (cold this) = SIZE_MAX) /\
  let r := FindClosestLowerOrEqualLine Examples.fs_good 65 (Some 0) this in
  fst r = fst (FindClosestLowerOrEqualLine Examples.fs_good 65 (Some 0) (cold this)) /\
  fst (FindClosestLowerOrEqualLine Examples.fs_good 65 (Some 0) (snd r)) = fst r /\
  fst (FindClosestLowerOrEqualLine Examples.fs_good 65 (snd (fst r)) (snd r)) = fst r.
Proof.
  cbv zeta. split.
  - vm_compute. repeat split.
  - exact (cache_transparency Examples.fs_good _
             (Loaded_Find Examples.fs_good _ 65 (Some 0) Loaded_fs_good) 65 (Some 0)).
Defined.

(** C9.  With a null output pointer the run of the query has one step, the
    test of the pointer, and returns false with the object as it was:
    nothing is stored through the pointer, the routing table is not looked
    at, and [LoadDecodedBlock] (the only place where the file is read and
    the cache slot used) is not called.  For every pointer the test of the
    pointer is the first step of the run, a store through the pointer occurs
    only in runs whose pointer is valid, no run is undefined, and the run
    returns the result of [FindClosestLowerOrEqualLine]. *)
Theorem Find_null_pointer (fs : FileSystem) (queryRva : Z) (this : RvaIndexLookup) :
  FindClosestLowerOrEqualLine_run fs queryRva None this
  = ([Run.TestOutLine], Run.Returned (false, None, this)) /\
  FindClosestLowerOrEqualLine fs queryRva None this = (false, None, this) /\
  forall outLine : ptr Z,
    let r := FindClosestLowerOrEqualLine_run fs queryRva outLine this in
    hd_error (fst r) = Some Run.TestOutLine /\
    (forall v, In (Run.WriteOutLine v) (fst r) -> outLine <> None) /\
    snd r = Run.Returned (FindClosestLowerOrEqualLine fs queryRva outLine this).
Proof.
  split; [reflexivity |]. split; [reflexivity |].
  intros outLine r. subst r.
  split; [apply Find_run_first |]. split; [| apply Find_run_returns].
  intros v Hin ->. cbn in Hin.
  destruct Hin as [H | []]. discriminate H.
Qed.

(** C10.  In every state of an object's life, a block that
    [LoadDecodedBlock] returns (decoded afresh or copied from the cache
    slot) has as many addresses as values, namely the record count of the
    block's header, with non-decreasing addresses; so the index the lookup
    derives from its binary search, when the search does not return the
    beginning, is a valid index of the values. *)
Theorem decoded_block_shape (fs : FileSystem) (this : RvaIndexLookup) :
  Reachable fs this ->
  forall (blockIndex : Z) (b0 b : DecodedBlock) (error error' : ptr string)
         (this' : RvaIndexLookup),
    0 <= blockIndex ->
    LoadDecodedBlock fs blockIndex (Some b0) error this = (true, Some b, error', this') ->
    (exists buf,
        block_buf (image this) (entry_at this (Z.to_nat blockIndex)) = Some buf /\
        Z.of_nat (length (rvas b)) = recordCount_of buf) /\
    length (lines b) = length (rvas b) /\
    (forall j k, (j <= k < length (rvas b))%nat -> nth j (rvas b) 0 <= nth k (rvas b) 0) /\
    (forall queryRva,
        let bit := Std.upper_bound (fun value x => value <? x) 0 (rvas b) queryRva in
        bit <> 0%nat -> (bit - 1 < length (lines b))%nat).
Proof.
  intros HR i b0 b error error' this' Hi H.
  assert (Hin : i < Z.of_nat (length (table this))).
  { unfold LoadDecodedBlock in H. simpl is_null in H. cbv iota in H.
    unfold table. destruct (Z.leb_spec (Z.of_nat (length (index1Entries_ this))) i);
      [discriminate | assumption]. }
  destruct (Reachable_Inv fs this HR) as [Hnil | HI].
  { rewrite Hnil in Hin. simpl in Hin. lia. }
  destruct (LoadDecodedBlock_Inv fs (Z.to_nat i) b0 error this HI) as (t' & _ & _ & E);
    [lia |].
  rewrite Z2Nat.id in E by lia. rewrite E in H. clear E.
  destruct (block_at this (Z.to_nat i)) as [msg | blk] eqn:Hb; [discriminate |].
  inversion H; subst. clear H.
  unfold block_at in Hb.
  destruct (decoded_shape _ _ _ Hb) as (Hlen & Hsorted).
  destruct (decode_block_inr _ _ _ Hb) as (_ & buf & Hbuf & _ & -> & _).
  destruct (decode_records_spec buf) as (Hr & _ & _).
  split; [| split; [| split]].
  - exists buf. split; [exact Hbuf |]. rewrite Hr.
    pose proof (ReadLe32_range buf 12). unfold recordCount_of. lia.
  - exact Hlen.
  - exact Hsorted.
  - intros q bit Hbit.
    pose proof (upper_bound_le (fun z => z) 0 q (rvas (decode_records buf))) as Hle.
    fold bit in Hle. lia.
Qed.

(** C10, witness: block 1 of [fs_good]. *)
Lemma decoded_block_shape_witness :
  let r := LoadDecodedBlock Examples.fs_good 1 (Some DecodedBlock_empty) (Some "")
                            (Synth.loaded Examples.fs_good) in
  let b := match snd (fst (fst r)) with
           | Some b => b
           | None => DecodedBlock_empty
           end in
  fst (fst (fst r)) = true /\
  length (lines b) = length (rvas b) /\
  (forall queryRva,
      let bit := Std.upper_bound (fun value x => value <? x) 0 (rvas b) queryRva in
      bit <> 0%nat -> (bit - 1 < length (lines b))%nat).
Proof.
  cbv zeta.
  set (r := LoadDecodedBlock Examples.fs_good 1 (Some DecodedBlock_empty) (Some "")
                             (Synth.loaded Examples.fs_good)).
  set (b := match snd (fst (fst r)) with
            | Some b => b
            | None => DecodedBlock_empty
            end).
  assert (E : LoadDecodedBlock Examples.fs_good 1 (Some DecodedBlock_empty) (Some "")
                               (Synth.loaded Examples.fs_good)
              = (true, Some b, snd (fst r), snd r))
    by (vm_compute; reflexivity).
  assert (0 <= 1) as H01 by lia.
  pose proof (decoded_block_shape Examples.fs_good (Synth.loaded Examples.fs_good)
                Reachable_fs_good 1 DecodedBlock_empty b (Some "") (snd (fst r)) (snd r)
                H01 E) as H.
  split; [vm_compute; reflexivity |].
  split; [exact (proj1 (proj2 H)) | exact (proj2 (proj2 (proj2 H)))].
Defined.

(** * Further properties *)

(** ** The little-endian readers *)

Lemma land_shiftl_disjoint (a b n : Z) :
  0 <= n -> 0 <= a < 2 ^ n -> Z.land a (Z.shiftl b n) = 0.
Proof.
  intros Hn Ha. apply Z.bits_inj'. intros i Hi.
  rewrite Z.land_spec, Z.bits_0.
  destruct (Z_lt_ge_dec i n) as [Hlt | Hge].
  - rewrite (Z.shiftl_spec_low b n i Hlt). apply andb_false_r.
  - replace a with (a mod 2 ^ n) by (apply Z.mod_small; lia).
    rewrite Z.mod_pow2_bits_high by lia. reflexivity.
Qed.

Lemma lor_shiftl_add (a b n : Z) :
  0 <= n -> 0 <= a < 2 ^ n -> Z.lor a (Z.shiftl b n) = a + b * 2 ^ n.
Proof.
  intros Hn Ha.
  pose proof (Z.add_lor_land a (Z.shiftl b n)) as H.
  rewrite (land_shiftl_disjoint a b n Hn Ha), Z.add_0_r in H.
  rewrite H, Z.shiftl_mul_pow2 by lia. reflexivity.
Qed.

(** X1.  The readers return the little-endian value of the bytes at the
    offset: byte [k] of the field weighs 256^k, and the result fits the
    width of the field. *)
Theorem little_endian_value (p : list byte) (off : nat) :
  ReadLe16 p off = at_ p off + 2 ^ 8 * at_ p (off + 1) /\
  ReadLe32 p off = at_ p off + 2 ^ 8 * at_ p (off + 1)
                   + 2 ^ 16 * at_ p (off + 2) + 2 ^ 24 * at_ p (off + 3) /\
  ReadLe64 p off = ReadLe32 p off + 2 ^ 32 * ReadLe32 p (off + 4) /\
  0 <= ReadLe16 p off < 2 ^ 16 /\
  0 <= ReadLe32 p off < 2 ^ 32 /\
  0 <= ReadLe64 p off < 2 ^ 64.
Proof.
  pose proof (at_range p off) as H0. pose proof (at_range p (off + 1)) as H1.
  pose proof (at_range p (off + 2)) as H2. pose proof (at_range p (off + 3)) as H3.
  assert (E16 : Z.lor (at_ p off) (Z.shiftl (at_ p (off + 1)) 8)
                = at_ p off + 2 ^ 8 * at_ p (off + 1)).
  { rewrite lor_shiftl_add by lia. lia. }
  assert (E32 : ReadLe32 p off = at_ p off + 2 ^ 8 * at_ p (off + 1)
                                 + 2 ^ 16 * at_ p (off + 2) + 2 ^ 24 * at_ p (off + 3)).
  { unfold ReadLe32. rewrite E16.
    rewrite (lor_shiftl_add _ _ 16) by lia.
    rewrite (lor_shiftl_add _ _ 24) by lia. lia. }
  split; [| split; [exact E32 | split]].
  - unfold ReadLe16. rewrite E16. apply Z.mod_small. lia.
  - unfold ReadLe64. pose proof (ReadLe32_range p off).
    rewrite lor_shiftl_add by lia. lia.
  - split; [apply ReadLe16_range | split; [apply ReadLe32_range | apply ReadLe64_range]].
Qed.

(** ** Streams and the open-failure flag *)

(** A short read leaves [failbit] set on the stream of the engine. *)
Lemma LoadDecodedBlock_short_read (fs : FileSystem) (i : nat) (b0 : DecodedBlock)
      (error : ptr string) (this : RvaIndexLookup) :
  is_open (index2Stream_ this) = true ->
  (i < length (table this))%nat ->
  cachedBlockIndex_ this <> Z.of_nat i ->
  block_at this i = inl msg_read ->
  failbit (index2Stream_ (snd (LoadDecodedBlock fs (Z.of_nat i) (Some b0) error this)))
  = true.
Proof.
  intros Hopen Hi Hc Hb. unfold LoadDecodedBlock. simpl is_null. cbv iota.
  unfold table in Hi.
  destruct (Z.leb_spec (Z.of_nat (length (index1Entries_ this))) (Z.of_nat i)); [lia |].
  rewrite EnsureIndex2Open_open by assumption.
  destruct (Z.eqb_spec (cachedBlockIndex_ this) (Z.of_nat i)); [contradiction |].
  rewrite Nat2Z.id.
  unfold block_at, decode_block, entry_at, table, image in Hb.
  set (e := nth i (index1Entries_ this) Index1Entry_default) in *.
  destruct (Z.ltb_spec (index2Size e) 16) as [Hsmall | Hbig]; [discriminate |].
  cbv zeta.
  destruct (block_buf (fdata (index2Stream_ this)) e) as [buf |] eqn:Hbuf.
  { unfold decode_buf in Hb.
    destruct (negb _); [discriminate |].
    destruct (negb _ && negb _); discriminate. }
  clear Hb.
  pose proof (read_block_stream (index2Stream_ this)
                (to_streamoff (index2Offset e)) (Z.to_nat (index2Size e)) Hopen) as R.
  cbv zeta in R. destruct R as (R1 & _ & _).
  fold (block_buf (fdata (index2Stream_ this)) e) in R1. rewrite Hbuf in R1.
  unfold Stream.ReadFully in *.
  destruct (failbit (Stream.seekg _ _)) eqn:Hf; [reflexivity |].
  destruct (Nat.eqb _ 0); [discriminate |].
  destruct (negb _); [reflexivity |].
  destruct (_ <=? _); [discriminate | reflexivity].
Qed.

(** X2.  A short read does not outlast the call that met it.  When the
    byte window of block [i] is not inside index file 2, [LoadDecodedBlock]
    fails with "Failed reading index2 block", leaves the caller's block as
    it was and leaves [failbit] set on the stream; every later request for
    a block that decodes succeeds all the same and returns the decoding of
    that block, the stream state being cleared before each seek. *)
Theorem short_read_is_recovered (fs : FileSystem) (this : RvaIndexLookup) :
  Loaded fs this ->
  forall (i : nat) (b0 : DecodedBlock) (error : ptr string),
    (i < length (table this))%nat ->
    block_at this i = inl msg_read ->
    let r := LoadDecodedBlock fs (Z.of_nat i) (Some b0) error this in
    fst r = (false, Some b0, SetError error msg_read) /\
    failbit (index2Stream_ (snd r)) = true /\
    forall (j : nat) (b b1 : DecodedBlock) (error2 : ptr string),
      (j < length (table this))%nat ->
      block_at this j = inr b ->
      fst (LoadDecodedBlock fs (Z.of_nat j) (Some b1) error2 (snd r))
      = (true, Some b, error2).
Proof.
  intros HL i b0 error Hi Hb r. subst r. apply Loaded_Inv in HL.
  assert (Hc : cachedBlockIndex_ this <> Z.of_nat i).
  { intros Hc. destruct (inv_cache this HL) as [Hmax | [_ Hblk]].
    - unfold SIZE_MAX in Hmax. pose proof (inv_size this HL) as Hs.
      unfold SIZE_MAX in Hs. lia.
    - rewrite Hc, Nat2Z.id in Hblk. congruence. }
  pose proof (LoadDecodedBlock_short_read fs i b0 error this
                (inv_open this HL) Hi Hc Hb) as Hf.
  destruct (LoadDecodedBlock_Inv fs i b0 error this HL Hi) as (this' & HI' & S' & E).
  rewrite Hb in E. rewrite E in *. cbn [fst snd] in *.
  split; [reflexivity |]. split; [exact Hf |].
  intros j b b1 error2 Hj Hbj.
  assert (Hj' : (j < length (table this'))%nat) by (destruct S' as (T & _); rewrite T; exact Hj).
  destruct (LoadDecodedBlock_Inv fs j b1 error2 this' HI' Hj') as (this2 & _ & _ & E2).
  rewrite (block_at_same this this' j S'), Hbj in E2. rewrite E2. reflexivity.
Qed.

Lemma Loaded_fs_short : Loaded Examples.fs_short (Synth.loaded Examples.fs_short).
Proof.
  apply (Loaded_Load Examples.fs_short "index1.bin" "index2.bin" (Some "")
                     RvaIndexLookup_new (Some "")).
  vm_compute. reflexivity.
Qed.

(** X2, witness: in [fs_short] the window of block 1 lies past the end of
    the file; after the failed request for block 1, block 0 is read and
    decoded. *)
Lemma short_read_is_recovered_witness :
  let this := Synth.loaded Examples.fs_short in
  let r := LoadDecodedBlock Examples.fs_short 1 (Some DecodedBlock_empty) (Some "") this in
  fst r = (false, Some DecodedBlock_empty, Some msg_read) /\
  failbit (index2Stream_ (snd r)) = true /\
  fst (LoadDecodedBlock Examples.fs_short 0 (Some DecodedBlock_empty) (Some "") (snd r))
  = (true, Some {| rvas := [10]; lines := [1] |}, Some "").
Proof.
  cbv zeta.
  assert (H1 : (1 < length (table (Synth.loaded Examples.fs_short)))%nat)
    by (vm_compute; lia).
  assert (H2 : block_at (Synth.loaded Examples.fs_short) 1 = inl msg_read)
    by (vm_compute; reflexivity).
  destruct (short_read_is_recovered Examples.fs_short (Synth.loaded Examples.fs_short)
              Loaded_fs_short 1 DecodedBlock_empty (Some "") H1 H2) as (A & B & C).
  split; [exact A |]. split; [exact B |].
  apply (C 0%nat {| rvas := [10]; lines := [1] |} DecodedBlock_empty (Some "")).
  - vm_compute. lia.
  - vm_compute. reflexivity.
Defined.

Lemma EnsureIndex2Open_fails (fs : FileSystem) (error error' : ptr string)
      (this this' : RvaIndexLookup) :
  EnsureIndex2Open fs error this = (false, error', this') ->
  is_open (index2Stream_ this') = false /\ index2OpenAttempted_ this' = true /\
  error' = SetError error (lastError_ this').
Proof.
  unfold EnsureIndex2Open. cbv zeta.
  destruct (is_open (index2Stream_ this)) eqn:Ho; [discriminate |].
  destruct (index2OpenAttempted_ this) eqn:Ha.
  { intros H; inversion H; subst. auto. }
  fields.
  destruct (failbit (Stream.open fs (index2Stream_ this) (index2Path_ this))) eqn:Hf;
    [| discriminate].
  intros H; inversion H; subst. fields.
  unfold Stream.open in *. rewrite Ho in *.
  destruct (fs (index2Path_ this)); [discriminate |].
  cbn [is_open Stream.setfail]. auto.
Qed.

(** X3.  A failed attempt to open index file 2 is recorded: every later
    call of [EnsureIndex2Open], whatever the file system holds by then,
    fails at once with the recorded message and leaves the object as it is
    (the file system is not consulted again). *)
Theorem open_failure_is_replayed (fs : FileSystem) (error error' : ptr string)
        (this this' : RvaIndexLookup) :
  EnsureIndex2Open fs error this = (false, error', this') ->
  forall (fs' : FileSystem) (error2 : ptr string),
    EnsureIndex2Open fs' error2 this'
    = (false, SetError error2 (lastError_ this'), this').
Proof.
  intros H fs' error2. apply EnsureIndex2Open_fails in H.
  destruct H as (Ho & Ha & _).
  unfold EnsureIndex2Open. rewrite Ho, Ha. reflexivity.
Qed.

(** X3, witness: the file "missing.bin" does not exist at the first call
    and is looked for in a file system that has "index2.bin" under that
    name at the second. *)
Lemma open_failure_is_replayed_witness :
  let this := set_index2Path "missing.bin" RvaIndexLookup_new in
  let r := EnsureIndex2Open Examples.fs_good (Some "") this in
  fst (fst r) = false /\
  EnsureIndex2Open (fun _ => Examples.fs_good "index2.bin") (Some "") (snd r)
  = (false, Some "Failed to open index2 file: missing.bin", snd r).
Proof.
  cbv zeta. split; [vm_compute; reflexivity |].
  assert (E : EnsureIndex2Open Examples.fs_good (Some "")
                               (set_index2Path "missing.bin" RvaIndexLookup_new)
              = (false, Some "Failed to open index2 file: missing.bin",
                 snd (EnsureIndex2Open Examples.fs_good (Some "")
                        (set_index2Path "missing.bin" RvaIndexLookup_new))))
    by (vm_compute; reflexivity).
  exact (open_failure_is_replayed Examples.fs_good (Some "") _ _ _ E
           (fun _ => Examples.fs_good "index2.bin") (Some "")).
Defined.

(** ** What a query touches *)

Lemma LoadDecodedBlock_frame (fs : FileSystem) (i : Z) (out out' : ptr DecodedBlock)
      (error error' : ptr string) (b : bool) (this this' : RvaIndexLookup) :
  LoadDecodedBlock fs i out error this = (b, out', error', this') ->
  index1Entries_ this' = index1Entries_ this /\
  index2Path_ this' = index2Path_ this /\
  totalDumpLines_ this' = totalDumpLines_ this /\
  (is_open (index2Stream_ this) = true -> is_open (index2Stream_ this') = true).
Proof.
  unfold LoadDecodedBlock.
  destruct (is_null out); [intros H; inversion H; subst; auto |].
  destruct (_ <=? i); [intros H; inversion H; subst; auto |].
  destruct (EnsureIndex2Open fs error this) as [[b1 e1] t1] eqn:E.
  assert (Ho : is_open (index2Stream_ this) = true -> is_open (index2Stream_ t1) = true).
  { intros Ho. rewrite EnsureIndex2Open_open in E by exact Ho. inversion E; subst. exact Ho. }
  apply EnsureIndex2Open_frame in E. destruct E as (E1 & E2 & E3 & _).
  destruct b1; [| intros H; inversion H; subst; auto].
  destruct (cachedBlockIndex_ t1 =? i); [intros H; inversion H; subst; auto |].
  cbv zeta.
  destruct (index2Size _ <? 16); [intros H; inversion H; subst; auto |].
  set (off := to_streamoff _). set (n := Z.to_nat _).
  assert (Hs : is_open (index2Stream_ t1) = true ->
               is_open (snd (Stream.ReadFully
                               (Stream.seekg (Stream.clear (index2Stream_ t1)) off) n))
               = true).
  { intros Ho1. apply (read_block_stream (index2Stream_ t1) off n Ho1). }
  destruct (Stream.ReadFully _ n) as [[buf |] s] eqn:ER; cbn [snd] in Hs.
  - destruct (negb (_ =? _)); [intros H; inversion H; subst; fields; repeat split; auto |].
    destruct (negb _ && negb _); intros H; inversion H; subst; fields; repeat split; auto.
  - intros H; inversion H; subst; fields. repeat split; auto.
Qed.

Lemma floorInBlock_result (q : Z) (b : DecodedBlock) (out : ptr Z) :
  (fst (floorInBlock q b out) = false /\ snd (floorInBlock q b out) = out)
  \/ (fst (floorInBlock q b out) = true /\
      snd (floorInBlock q b out)
      = store out (nth (Std.upper_bound (fun value x => value <? x) 0 (rvas b) q - 1)
                       (lines b) 0)).
Proof.
  unfold floorInBlock. cbv zeta.
  destruct (Std.empty (rvas b)); [left; auto |].
  destruct (Nat.eqb _ 0); [left; auto | right; auto].
Qed.

(** X4.  A query changes neither the routing table, nor the path, nor the
    reported total; when it reports not-found the caller's value is left as
    it was, and when it reports success the pointer was valid and a value
    was written. *)
Theorem query_frame (fs : FileSystem) (q : Z) (out : ptr Z) (this : RvaIndexLookup) :
  let r := FindClosestLowerOrEqualLine fs q out this in
  index1Entries_ (snd r) = index1Entries_ this /\
  index2Path_ (snd r) = index2Path_ this /\
  totalDumpLines_ (snd r) = totalDumpLines_ this /\
  (fst (fst r) = false -> snd (fst r) = out) /\
  (fst (fst r) = true -> exists v0 v, out = Some v0 /\ snd (fst r) = Some v).
Proof.
  cbv zeta. unfold FindClosestLowerOrEqualLine.
  destruct out as [v0 |]; cbn [is_null orb]; [| repeat split; auto; discriminate].
  destruct (Std.empty (index1Entries_ this));
    [cbn [fst snd]; repeat split; auto; discriminate |].
  destruct (q <? _); [cbn [fst snd]; repeat split; auto; discriminate |].
  cbv zeta.
  destruct (Nat.eqb _ 0); [cbn [fst snd]; repeat split; auto; discriminate |].
  destruct (LoadDecodedBlock fs _ _ _ this) as [[[b1 o1] e1] t1] eqn:E1.
  apply LoadDecodedBlock_frame in E1. destruct E1 as (A1 & A2 & A3 & _).
  destruct b1; [| cbn [fst snd]; repeat split; auto; discriminate].
  set (blk := match o1 with Some b => b | None => DecodedBlock_empty end).
  destruct (floorInBlock_result q blk (Some v0)) as [[F1 F2] | [F1 F2]];
    destruct (floorInBlock q blk (Some v0)) as [f o]; cbn [fst snd] in F1, F2; subst f o.
  2:{ cbn [fst snd store]. repeat split; auto; try discriminate.
      intros _. eexists. eexists. split; reflexivity. }
  destruct (_ =? 0); [cbn [fst snd]; repeat split; auto; discriminate |].
  destruct (LoadDecodedBlock fs _ _ _ t1) as [[[b2 o2] e2] t2] eqn:E2.
  apply LoadDecodedBlock_frame in E2. destruct E2 as (B1 & B2 & B3 & _).
  destruct b2; [| cbn [fst snd]; repeat split; try congruence; discriminate].
  cbv zeta.
  destruct (Std.empty _); cbn [fst snd store]; repeat split; try congruence;
    try discriminate.
  intros _. eexists. eexists. split; reflexivity.
Qed.

Lemma LoadDecodedBlock_any_fs (fs fs' : FileSystem) (i : Z) (out : ptr DecodedBlock)
      (error : ptr string) (this : RvaIndexLookup) :
  is_open (index2Stream_ this) = true ->
  LoadDecodedBlock fs' i out error this = LoadDecodedBlock fs i out error this.
Proof.
  intros Ho. unfold LoadDecodedBlock.
  rewrite !EnsureIndex2Open_open by exact Ho. reflexivity.
Qed.

(** X5.  A query of a loaded engine consults no file other than index
    file 2: it gives the same result and leaves the same state under every
    file system that holds the same index file 2, whatever has become of
    index file 1 and of every other path. *)
Theorem query_needs_only_index2 (fs : FileSystem) (this : RvaIndexLookup) :
  Loaded fs this ->
  forall (fs' : FileSystem) (q : Z) (out : ptr Z),
    fs' (index2Path_ this) = fs (index2Path_ this) ->
    FindClosestLowerOrEqualLine fs' q out this
    = FindClosestLowerOrEqualLine fs q out this.
Proof.
  intros HL fs' q out _. apply Loaded_Inv in HL. pose proof (inv_open this HL) as Ho.
  unfold FindClosestLowerOrEqualLine.
  destruct (is_null out || Std.empty (index1Entries_ this)); [reflexivity |].
  destruct (q <? _); [reflexivity |].
  cbv zeta.
  destruct (Nat.eqb _ 0); [reflexivity |].
  rewrite (LoadDecodedBlock_any_fs fs fs') by exact Ho.
  destruct (LoadDecodedBlock fs _ _ _ this) as [[[b1 o1] e1] t1] eqn:E1.
  apply LoadDecodedBlock_frame in E1. destruct E1 as (_ & _ & _ & Ho1).
  destruct b1; [| reflexivity].
  destruct (floorInBlock _ _ _) as [[|] o]; [reflexivity |].
  destruct (_ =? 0); [reflexivity |].
  rewrite (LoadDecodedBlock_any_fs fs fs') by (apply Ho1; exact Ho).
  reflexivity.
Qed.

(** X5, witness: the loaded index [fs_good] queried when index file 1 is
    gone and index file 2 is in place. *)
Lemma query_needs_only_index2_witness :
  let fs' := fun path : string =>
               if String.eqb path "index2.bin" then Examples.fs_good path else None in
  fs' "index1.bin" = None /\
  FindClosestLowerOrEqualLine fs' 65 (Some 0) (Synth.loaded Examples.fs_good)
  = FindClosestLowerOrEqualLine Examples.fs_good 65 (Some 0)
                                (Synth.loaded Examples.fs_good).
Proof.
  cbv zeta. split; [reflexivity |].
  apply (query_needs_only_index2 Examples.fs_good (Synth.loaded Examples.fs_good)
           Loaded_fs_good).
  vm_compute. reflexivity.
Defined.

(** X6.  Once [LoadDecodedBlock] has returned a block of a loaded engine,
    asking for the same block again returns the same block from the cache
    slot: the stream is neither moved nor read, and the object is left
    exactly as it is. *)
Theorem cache_hit_repeats (fs : FileSystem) (this : RvaIndexLookup) :
  Loaded fs this ->
  forall (i : nat) (b0 b : DecodedBlock) (error error' : ptr string)
         (this' : RvaIndexLookup),
    LoadDecodedBlock fs (Z.of_nat i) (Some b0) error this = (true, Some b, error', this') ->
    forall (fs' : FileSystem) (b1 : DecodedBlock) (error2 : ptr string),
      LoadDecodedBlock fs' (Z.of_nat i) (Some b1) error2 this'
      = (true, Some b, error2, this').
Proof.
  intros HL i b0 b error error' this' H fs' b1 error2.
  apply Loaded_Inv in HL. destruct HL as [Hopen Hne Hsize Hsorted Hcache].
  assert (Hi : (i < length (table this))%nat).
  { unfold LoadDecodedBlock in H. cbn [is_null] in H. unfold table.
    destruct (Z.leb_spec (Z.of_nat (length (index1Entries_ this))) (Z.of_nat i));
      [discriminate | lia]. }
  assert (Hgoal : is_open (index2Stream_ this') = true /\
                  table this' = table this /\
                  cachedBlockIndex_ this' = Z.of_nat i /\ cachedBlock_ this' = b).
  { destruct (Z.eq_dec (cachedBlockIndex_ this) (Z.of_nat i)) as [Hc | Hc].
    - rewrite LoadDecodedBlock_warm in H by (auto; lia).
      inversion H; subst. auto.
    - destruct (LoadDecodedBlock_cold fs i b0 error this Hopen Hi Hc) as (s & Hs & _ & E).
      rewrite E in H. destruct (block_at this i); inversion H; subst.
      cbn. auto. }
  destruct Hgoal as (Ho' & Ht' & Hc' & Hb').
  rewrite <- Hb'. apply LoadDecodedBlock_warm; auto. rewrite Ht'. lia.
Qed.

(** X6, witness: block 1 of [fs_good], decoded by a first call. *)
Lemma cache_hit_repeats_witness :
  let r := LoadDecodedBlock Examples.fs_good 1 (Some DecodedBlock_empty) (Some "")
                            (Synth.loaded Examples.fs_good) in
  LoadDecodedBlock Examples.fs_good 1 (Some DecodedBlock_empty) (Some "") (snd r)
  = (true, Some {| rvas := [60; 70]; lines := [3; 4] |}, Some "", snd r).
Proof.
  cbv zeta.
  set (r := LoadDecodedBlock Examples.fs_good 1 (Some DecodedBlock_empty) (Some "")
                             (Synth.loaded Examples.fs_good)).
  assert (E : LoadDecodedBlock Examples.fs_good (Z.of_nat 1) (Some DecodedBlock_empty)
                               (Some "") (Synth.loaded Examples.fs_good)
              = (true, Some {| rvas := [60; 70]; lines := [3; 4] |}, Some "", snd r))
    by (vm_compute; reflexivity).
  exact (cache_hit_repeats Examples.fs_good (Synth.loaded Examples.fs_good)
           Loaded_fs_good 1%nat DecodedBlock_empty _ (Some "") (Some "") (snd r) E
           Examples.fs_good DecodedBlock_empty (Some "")).
Defined.

(** X7.  Through the whole life of an object (construction, calls of [Load]
    whatever they return, queries) the cache slot is vacant or holds exactly
    the decoding, against the open file, of the block it names; and while
    the table is empty the slot is vacant. *)
Theorem cache_slot_invariant (fs : FileSystem) (this : RvaIndexLookup) :
  Reachable fs this ->
  cache_ok this /\ (table this = [] -> cachedBlockIndex_ this = SIZE_MAX).
Proof.
  induction 1 as [| this p1 p2 e _ _ | this q out HR IH].
  - split; [left |]; reflexivity.
  - destruct (Load fs p1 p2 e this) as [[b e'] this'] eqn:E. cbn [snd].
    destruct b.
    + pose proof (Load_true fs p1 p2 e e' this this' E)
        as (_ & _ & _ & _ & _ & _ & _ & _ & _ & _ & Hci & _).
      split; [left; exact Hci | intros _; exact Hci].
    + pose proof (Load_false fs p1 p2 e this) as F. cbv zeta in F.
      rewrite E in F. destruct (F eq_refl) as (_ & _ & Hci & _).
      split; [left; exact Hci | intros _; exact Hci].
  - destruct out as [v |]; [| exact IH].
    destruct (Reachable_Inv fs this HR) as [Hnil | HI].
    + unfold FindClosestLowerOrEqualLine. unfold table in Hnil. rewrite Hnil.
      cbn. exact IH.
    + destruct (Find_Inv fs q v this HI) as (this' & HI' & _ & E). rewrite E. cbn [snd].
      split; [exact (inv_cache this' HI') |].
      intros Hnil. destruct (inv_nonempty this' HI' Hnil).
Qed.

(** X7, witness: the state after one query on [fs_good] holds block 1 in
    its slot. *)
Lemma cache_slot_invariant_witness :
  let this := snd (FindClosestLowerOrEqualLine Examples.fs_good 65 (Some 0)
                     (Synth.loaded Examples.fs_good)) in
  cachedBlockIndex_ this = 1 /\ cache_ok this.
Proof.
  cbv zeta. split; [vm_compute; reflexivity |].
  exact (proj1 (cache_slot_invariant Examples.fs_good _
                  (Reachable_Find Examples.fs_good _ 65 (Some 0) Reachable_fs_good))).
Defined.

(** X8, witness: the rejected pair [fs_mismatch]. *)
Lemma failed_Load_clears_table_witness :
  let r := Load Examples.fs_mismatch "index1.bin" "index2.bin" (Some "")
                RvaIndexLookup_new in
  index1Entries_ (snd r) = [] /\ index2Path_ (snd r) = "" /\
  cachedBlockIndex_ (snd r) = SIZE_MAX /\ cachedBlock_ (snd r) = DecodedBlock_empty /\
  forall q out,
    FindClosestLowerOrEqualLine Examples.fs_mismatch q out (snd r) = (false, out, snd r).
Proof.
  apply (failed_Load_clears_table Examples.fs_mismatch "index1.bin" "index2.bin"
           (Some "") RvaIndexLookup_new).
  vm_compute. reflexivity.
Defined.

(** ** The two binary searches *)

Lemma count_prefix {A} (P : A -> bool) (d : A) (v : list A) :
  forall r, (r <= length v)%nat ->
            (forall i, (i < r)%nat -> P (nth i v d) = true) ->
            (forall i, (r <= i < length v)%nat -> P (nth i v d) = false) ->
            length (filter P v) = r.
Proof.
  induction v as [| x tl IH]; intros r Hr Hlo Hhi.
  - simpl in *. lia.
  - destruct r as [| r'].
    + pose proof (Hhi 0%nat) as H0. simpl in H0. cbn [filter]. rewrite H0 by (simpl; lia).
      apply IH; [lia | intros; lia |].
      intros i Hi. apply (Hhi (S i)). simpl. lia.
    + pose proof (Hlo 0%nat) as H0. simpl in H0. cbn [filter]. rewrite H0 by lia.
      simpl. f_equal. apply IH; [simpl in Hr; lia | |].
      * intros i Hi. apply (Hlo (S i)). lia.
      * intros i Hi. apply (Hhi (S i)). simpl. lia.
Qed.

(** X9.  On a sorted sequence the halving search of [std::upper_bound]
    returns what a linear scan would: the number of elements not above the
    query; so the lookup routes to entry number (count - 1) of the routing
    table, and inside a block to record number (count - 1). *)
Theorem upper_bound_counts (t : list Index1Entry) (rv : list Z) (q : Z) :
  (routing_sorted t ->
   Std.upper_bound (fun value entry => value <? startRva entry) Index1Entry_default t q
   = length (filter (fun e => startRva e <=? q) t)) /\
  (Std.is_sorted Z.ltb rv = true ->
   Std.upper_bound (fun value x => value <? x) 0 rv q
   = length (filter (fun x => x <=? q) rv)).
Proof.
  split.
  - intros Hs.
    destruct (upper_bound_spec startRva Index1Entry_default q t Hs) as (Hr & Hlo & Hhi).
    symmetry. apply (count_prefix _ Index1Entry_default); [exact Hr | |].
    + intros i Hi. apply Z.leb_le. apply Hlo. exact Hi.
    + intros i Hi. apply Z.leb_gt. apply Hhi. exact Hi.
  - intros Hs.
    destruct (upper_bound_Z rv q Hs) as (Hr & Hlo & Hhi).
    symmetry. apply (count_prefix _ 0); [exact Hr | |].
    + intros i Hi. apply Z.leb_le. apply Hlo. exact Hi.
    + intros i Hi. apply Z.leb_gt. apply Hhi. exact Hi.
Qed.

(** ** Answers of a loaded engine, without assumptions on the files *)

(** X10.  On a loaded engine, when the block the query routes to decodes
    and holds a key not above the query, the answer is the value of the last
    record of that block whose key is not above the query, whatever the
    other blocks hold. *)
Theorem floor_in_routed_block (fs : FileSystem) (this : RvaIndexLookup) :
  Loaded fs this ->
  forall (q v0 : Z) (i j : nat) (b : DecodedBlock),
    (i < length (table this))%nat ->
    route_key this i <= q ->
    (forall i', (i < i' < length (table this))%nat -> q < route_key this i') ->
    block_at this i = inr b ->
    (j < length (rvas b))%nat ->
    nth j (rvas b) 0 <= q ->
    (forall j', (j < j' < length (rvas b))%nat -> q < nth j' (rvas b) 0) ->
    fst (FindClosestLowerOrEqualLine fs q (Some v0) this)
    = (true, Some (nth j (lines b) 0)).
Proof.
  intros HL q v0 i j b Hi Hle Hgt Hb Hj Hjq Hafter.
  apply Loaded_Inv in HL.
  destruct (Find_Inv fs q v0 this HL) as (this' & _ & _ & E). rewrite E. cbn [fst].
  rewrite (find_pure_routed (table this) (inv_sorted this HL) (image this) q v0 i Hi Hle Hgt).
  unfold block_at, entry_at in Hb. rewrite Hb.
  destruct (decode_block_inr _ _ _ Hb) as (_ & _ & _ & _ & _ & Hs).
  destruct (floorInBlock_spec q v0 b Hs) as [(_ & Habove) | (j0 & Hj0 & F & Hj0q & Hafter0)].
  - specialize (Habove j Hj). lia.
  - rewrite F.
    destruct (Nat.lt_trichotomy j j0) as [Hlt | [-> | Hgt0]]; [| reflexivity |].
    + specialize (Hafter j0). lia.
    + specialize (Hafter0 j). lia.
Qed.

(** X10, witness: the query 65 on [fs_good] routes to block 1 and finds the
    record with key 60. *)
Lemma floor_in_routed_block_witness :
  fst (FindClosestLowerOrEqualLine Examples.fs_good 65 (Some 0)
                                   (Synth.loaded Examples.fs_good))
  = (true, Some 3).
Proof.
  refine (floor_in_routed_block Examples.fs_good (Synth.loaded Examples.fs_good)
            Loaded_fs_good 65 0 1 0 {| rvas := [60; 70]; lines := [3; 4] |}
            _ _ _ _ _ _ _).
  - rewrite length_fs_good. lia.
  - vm_compute. discriminate.
  - intros i' Hi'. rewrite length_fs_good in Hi'. lia.
  - vm_compute. reflexivity.
  - simpl. lia.
  - simpl. lia.
  - intros j' Hj'. simpl in Hj'. assert (j' = 1%nat) by lia. subst. simpl. lia.
Defined.

(** X11.  A loaded engine never invents a value: every value a query
    returns is the value of a record stored in the file, in a block whose
    routing key is not above the query, and that block is the one the query
    routes to or the one before it.  In the routed block the record is one
    whose key is not above the query; in the block before it, which is used
    only when the routed block holds no such record, it is the last
    record. *)
Theorem answers_are_stored (fs : FileSystem) (this : RvaIndexLookup) :
  Loaded fs this ->
  forall (q v0 v : Z),
    fst (FindClosestLowerOrEqualLine fs q (Some v0) this) = (true, Some v) ->
    let routed :=
      Nat.sub (Std.upper_bound (fun value entry => value <? startRva entry)
                               Index1Entry_default (table this) q) 1 in
    exists i j k,
      stored this i j k v /\ route_key this i <= q /\
      ((i = routed /\ k <= q)
       \/ (S i = routed /\
           (forall j' k' v', stored this routed j' k' v' -> q < k') /\
           forall j' k' v', stored this i j' k' v' -> (j' <= j)%nat)).
Proof.
  intros HL q v0 v H routed. apply Loaded_Inv in HL.
  pose proof (inv_sorted this HL) as Hs. pose proof (inv_nonempty this HL) as Hne.
  destruct (Find_Inv fs q v0 this HL) as (this' & _ & _ & E).
  rewrite E in H. cbn [fst] in H. clear E this'.
  destruct (Z_lt_le_dec q (route_key this 0)) as [Hbelow | H0].
  { rewrite (find_pure_below (table this) (image this) q v0 Hbelow) in H. discriminate. }
  destruct (route_exists (table this) Hs q Hne H0) as (i0 & Hi0 & Hle & Hgt).
  assert (Hr : routed = i0).
  { subst routed. rewrite (route_index (table this) Hs q i0 Hi0 Hle Hgt). lia. }
  rewrite Hr. clear Hr routed.
  rewrite (find_pure_routed (table this) Hs (image this) q v0 i0 Hi0 Hle Hgt) in H.
  fold (entry_at this i0) in H. fold (block_at this i0) in H.
  destruct (block_at this i0) as [msg | b] eqn:Hb; [discriminate |].
  destruct (decoded_shape _ _ _ Hb) as (Hlen & _).
  destruct (decode_block_inr _ _ _ Hb) as (_ & _ & _ & _ & _ & Hsb).
  destruct (floorInBlock_spec q v0 b Hsb) as [(F & Habove) | (j & Hj & F & Hjq & _)];
    rewrite F in H.
  - destruct (Nat.eqb_spec i0 0) as [? | Hprev]; [discriminate |].
    fold (entry_at this (i0 - 1)) in H. fold (block_at this (i0 - 1)) in H.
    destruct (block_at this (i0 - 1)) as [msg | pb] eqn:Hpb; [discriminate |].
    destruct (decoded_shape _ _ _ Hpb) as (Hlenp & _).
    destruct (Std.empty (lines pb)) eqn:He; [discriminate |].
    assert (Hpos : (0 < length (lines pb))%nat)
      by (destruct (lines pb); [discriminate | simpl; lia]).
    inversion H as [Hv].
    exists (i0 - 1)%nat, (length (lines pb) - 1)%nat,
           (nth (length (lines pb) - 1) (rvas pb) 0).
    split; [| split].
    + split; [lia |]. exists pb. split; [exact Hpb |].
      split; [rewrite <- Hlenp; lia |]. split; [reflexivity | symmetry; apply last_as_nth].
    + apply Z.le_trans with (startRva (nth i0 (table this) Index1Entry_default));
        [| exact Hle].
      apply Hs. lia.
    + right. split; [lia |]. split.
      * intros j' k' v' (_ & b' & Hb' & Hj' & Hk' & _).
        rewrite Hb in Hb'. inversion Hb'; subst b'. rewrite <- Hk'. apply Habove. exact Hj'.
      * intros j' k' v' (_ & b' & Hb' & Hj' & _).
        rewrite Hpb in Hb'. inversion Hb'; subst b'. lia.
  - inversion H as [Hv].
    exists i0, j, (nth j (rvas b) 0). split; [| split; [exact Hle |]].
    + split; [exact Hi0 |]. exists b. auto.
    + left. split; [reflexivity | exact Hjq].
Qed.

(** X11, witness: the answer 2 to the query 55 on [fs_good] is the last
    record of block 0, the block before the routed block 1. *)
Lemma answers_are_stored_witness :
  let this := Synth.loaded Examples.fs_good in
  let routed :=
    Nat.sub (Std.upper_bound (fun value entry => value <? startRva entry)
                             Index1Entry_default (table this) 55) 1 in
  exists i j k,
    stored this i j k 2 /\ route_key this i <= 55 /\
    ((i = routed /\ k <= 55)
     \/ (S i = routed /\
         (forall j' k' v', stored this routed j' k' v' -> 55 < k') /\
         forall j' k' v', stored this i j' k' v' -> (j' <= j)%nat)).
Proof.
  apply (answers_are_stored Examples.fs_good (Synth.loaded Examples.fs_good)
           Loaded_fs_good 55 0 2).
  vm_compute. reflexivity.
Defined.

(** ** More on decoded blocks *)

Lemma LoadDecodedBlock_in_range (fs : FileSystem) (i : nat) (out out' : ptr DecodedBlock)
      (error error' : ptr string) (this this' : RvaIndexLookup) :
  LoadDecodedBlock fs (Z.of_nat i) out error this = (true, out', error', this') ->
  (i < length (table this))%nat.
Proof.
  unfold LoadDecodedBlock, table.
  destruct (is_null out); [discriminate |].
  destruct (Z.leb_spec (Z.of_nat (length (index1Entries_ this))) (Z.of_nat i));
    [discriminate | lia].
Qed.

(** X12.  In a block that [LoadDecodedBlock] returns on a loaded engine, the
    address of record [j] is the address of record 0 plus the sum of the
    address deltas of records 1 to [j], as integers: the deltas of a
    returned block never carry the address past 2^64. *)
Theorem decoded_address_sum (fs : FileSystem) (this : RvaIndexLookup) :
  Loaded fs this ->
  forall (i : nat) (b0 b : DecodedBlock) (error error' : ptr string)
         (this' : RvaIndexLookup) (buf : list byte),
    LoadDecodedBlock fs (Z.of_nat i) (Some b0) error this = (true, Some b, error', this') ->
    block_buf (image this) (entry_at this i) = Some buf ->
    forall j, (j < length (rvas b))%nat ->
              nth j (rvas b) 0 = nth 0 (rvas b) 0 + sum_deltas buf j /\
              nth 0 (rvas b) 0 + sum_deltas buf j < 2 ^ 64.
Proof.
  intros HL i b0 b error error' this' buf H Hbuf. apply Loaded_Inv in HL.
  pose proof (LoadDecodedBlock_in_range _ _ _ _ _ _ _ _ H) as Hi.
  destruct (LoadDecodedBlock_Inv fs i b0 error this HL Hi) as (t' & _ & _ & E).
  rewrite E in H. clear E.
  destruct (block_at this i) as [msg | blk] eqn:Hb; [discriminate |].
  inversion H; subst. clear H. unfold block_at in Hb.
  destruct (decode_block_inr _ _ _ Hb) as (_ & buf' & Hbuf' & _ & -> & Hs).
  rewrite Hbuf in Hbuf'. inversion Hbuf'; subst buf'.
  assert (Hsum : forall j, (j < length (rvas (decode_records buf)))%nat ->
                           nth j (rvas (decode_records buf)) 0
                           = nth 0 (rvas (decode_records buf)) 0 + sum_deltas buf j).
  { induction j as [| j IH]; intros Hj.
    - simpl. lia.
    - rewrite decode_records_exact by (auto; lia).
      replace (S j - 1)%nat with j by lia. rewrite IH by lia.
      cbn [sum_deltas]. lia. }
  intros j Hj. split; [apply Hsum; exact Hj |].
  rewrite <- Hsum by exact Hj. apply decode_records_range. exact Hj.
Qed.

(** X12, witness: block 0 of [fs_good], keys 10 and 10 + 30. *)
Lemma decoded_address_sum_witness :
  let b := {| rvas := [10; 40]; lines := [5; 2] |} in
  let buf := Synth.block_bytes (Synth.mk_block 0 5 [(10, 0); (30, 2)]) in
  nth 1 (rvas b) 0 = nth 0 (rvas b) 0 + sum_deltas buf 1 /\
  nth 0 (rvas b) 0 + sum_deltas buf 1 < 2 ^ 64.
Proof.
  cbv zeta.
  set (r := LoadDecodedBlock Examples.fs_good 0 (Some DecodedBlock_empty) (Some "")
                             (Synth.loaded Examples.fs_good)).
  assert (E : LoadDecodedBlock Examples.fs_good (Z.of_nat 0) (Some DecodedBlock_empty)
                               (Some "") (Synth.loaded Examples.fs_good)
              = (true, Some {| rvas := [10; 40]; lines := [5; 2] |}, Some "", snd r))
    by (vm_compute; reflexivity).
  refine (decoded_address_sum Examples.fs_good (Synth.loaded Examples.fs_good)
            Loaded_fs_good 0%nat DecodedBlock_empty _ (Some "") (Some "") (snd r) _ E _
            1%nat _).
  - vm_compute. reflexivity.
  - simpl. lia.
Defined.

(** X13.  On a loaded engine, a block whose routing entry declares exactly
    16 bytes, all inside the file, decodes if and only if its header
    declares no record, and then to the empty sequences; with any other
    record count the call fails with the count message. *)
Theorem header_only_block (fs : FileSystem) (this : RvaIndexLookup) :
  Loaded fs this ->
  forall (i : nat) (b0 : DecodedBlock) (error : ptr string) (buf : list byte),
    (i < length (table this))%nat ->
    index2Size (entry_at this i) = 16 ->
    block_buf (image this) (entry_at this i) = Some buf ->
    let r := LoadDecodedBlock fs (Z.of_nat i) (Some b0) error this in
    (recordCount_of buf = 0 -> fst r = (true, Some DecodedBlock_empty, error)) /\
    (recordCount_of buf <> 0 -> fst r = (false, Some b0, SetError error msg_count)).
Proof.
  intros HL i b0 error buf Hi Hsz Hbuf. apply Loaded_Inv in HL. cbv zeta.
  destruct (LoadDecodedBlock_Inv fs i b0 error this HL Hi) as (t' & _ & _ & E).
  rewrite E. clear E. unfold block_at, decode_block. rewrite Hsz, Hbuf.
  change (16 <? 16) with false. cbv iota.
  destruct (decode_buf_cases buf (entry_at this i))
    as [(Hc & D) | [(Hc & Hs & D) | (Hc & Hs & D)]]; rewrite D; cbn [fst].
  - split; [intros H0; rewrite H0 in Hc; lia | reflexivity].
  - assert (H0 : recordCount_of buf = 0) by lia.
    unfold decode_records in Hs. rewrite H0 in Hs. discriminate.
  - assert (H0 : recordCount_of buf = 0) by lia.
    split; [| intros; contradiction].
    intros _. unfold decode_records. rewrite H0. reflexivity.
Qed.

Lemma Loaded_fs_gap : Loaded Examples.fs_gap (Synth.loaded Examples.fs_gap).
Proof.
  apply (Loaded_Load Examples.fs_gap "index1.bin" "index2.bin" (Some "")
                     RvaIndexLookup_new (Some "")).
  vm_compute. reflexivity.
Qed.

(** X13, witness: block 0 of [fs_gap]. *)
Lemma header_only_block_witness :
  fst (LoadDecodedBlock Examples.fs_gap 0 (Some DecodedBlock_empty) (Some "")
                        (Synth.loaded Examples.fs_gap))
  = (true, Some DecodedBlock_empty, Some "").
Proof.
  refine (proj1 (header_only_block Examples.fs_gap (Synth.loaded Examples.fs_gap)
                   Loaded_fs_gap 0%nat DecodedBlock_empty (Some "")
                   (Synth.block_bytes (Synth.mk_block 0 0 [])) _ _ _) _).
  - vm_compute. lia.
  - vm_compute. reflexivity.
  - vm_compute. reflexivity.
  - vm_compute. reflexivity.
Defined.

(** ** What [Load] accepts *)

Lemma ReadLe64_window (data : list byte) (start size off : nat) :
  (off + 8 <= size)%nat ->
  ReadLe64 (firstn size (skipn start data)) off = ReadLe64 data (start + off).
Proof.
  intros H. unfold ReadLe64. rewrite !ReadLe32_window by lia.
  replace (start + (off + 4))%nat with (start + off + 4)%nat by lia. reflexivity.
Qed.

Lemma equal_magic_prefix (magic : list byte) :
  forall (n : nat) (data : list byte),
    (length magic <= n)%nat -> (n <= length data)%nat ->
    Std.equal Byte.eqb magic (firstn n data) = Std.equal Byte.eqb magic data.
Proof.
  induction magic as [| x m IH]; intros n data Hm Hd; [reflexivity |].
  destruct n as [| n']; [simpl in Hm; lia |].
  destruct data as [| y d]; [simpl in Hd; lia |].
  cbn [firstn Std.equal]. f_equal. apply IH; simpl in *; lia.
Qed.

Section ReadEntries.
Variable data : list byte.

Local Abbreviation at_pos p :=
  {| is_open := true; fdata := data; gpos := Z.of_nat p; failbit := false |}.
Local Abbreviation entry_at_off o :=
  {| startRva := ReadLe64 data o;
     index2Offset := ReadLe64 data (o + 8);
     index2Size := ReadLe32 data (o + 16) |}.

Lemma ReadFully_at_pos (p n : nat) :
  (0 < n)%nat ->
  Stream.ReadFully (at_pos p) n
  = if (p + n <=? length data)%nat
    then (Some (firstn n (skipn p data)), at_pos (p + n))
    else (None, {| is_open := true; fdata := data;
                   gpos := Z.of_nat (length data); failbit := true |}).
Proof.
  intros Hn. unfold Stream.ReadFully. cbn [failbit is_open fdata gpos negb orb].
  destruct (Nat.eqb_spec n 0) as [H0 | _]; [lia |].
  rewrite Nat2Z.id, <- Nat2Z.inj_add.
  destruct (Nat.leb_spec (p + n) (length data)) as [Hin | Hout];
    destruct (Z.leb_spec (Z.of_nat (p + n)) (Z.of_nat (length data))); try lia;
    reflexivity.
Qed.

Lemma read_entries_Some (n : nat) :
  forall (p : nat) (acc : list Index1Entry),
    (p + 24 * n <= length data)%nat ->
    read_entries n (at_pos p) acc
    = Some (acc ++ map (fun k => entry_at_off (p + 24 * k)%nat) (seq 0 n)).
Proof.
  induction n as [| n IH]; intros p acc Hin; cbn [read_entries].
  - simpl. rewrite app_nil_r. reflexivity.
  - rewrite ReadFully_at_pos by lia.
    destruct (Nat.leb_spec (p + 24) (length data)); [| lia].
    rewrite IH by lia. unfold Std.push_back. rewrite <- app_assoc. do 2 f_equal.
    cbn [seq map app]. f_equal.
    + rewrite !ReadLe64_window, ReadLe32_window by lia.
      replace (p + 24 * 0)%nat with p by lia.
      replace (p + 0)%nat with p by lia. reflexivity.
    + rewrite <- seq_shift, map_map. apply map_ext. intros k.
      replace (p + 24 + 24 * k)%nat with (p + 24 * S k)%nat by lia. reflexivity.
Qed.

Lemma read_entries_None (n : nat) :
  forall (p : nat) (acc : list Index1Entry),
    (p <= length data)%nat ->
    (length data < p + 24 * n)%nat ->
    read_entries n (at_pos p) acc = None.
Proof.
  induction n as [| n IH]; intros p acc Hp Hout; cbn [read_entries].
  - lia.
  - rewrite ReadFully_at_pos by lia.
    destruct (Nat.leb_spec (p + 24) (length data)); [| reflexivity].
    apply IH; lia.
Qed.
End ReadEntries.

Lemma table_of_nth (i1 : list byte) (n k : nat) :
  (k < n)%nat -> nth k (table_of i1 n) Index1Entry_default = entry_of i1 k.
Proof.
  intros Hk. unfold table_of.
  rewrite (nth_indep _ Index1Entry_default (entry_of i1 0))
    by (rewrite length_map, length_seq; exact Hk).
  rewrite map_nth, seq_nth by exact Hk. reflexivity.
Qed.

Lemma table_of_length (i1 : list byte) (n : nat) : length (table_of i1 n) = n.
Proof. unfold table_of. rewrite length_map, length_seq. reflexivity. Qed.

(** The table [Load_index1] returns, and when it returns one. *)
Lemma Load_index1_inr (fs : FileSystem) (index1Path : string) (t : list Index1Entry) :
  Load_index1 fs index1Path = inr t <->
  exists i1,
    fs index1Path = Some i1 /\
    (12 <= length i1)%nat /\
    Std.equal Byte.eqb kIndex1Magic i1 = true /\
    supported_version (ReadLe16 i1 4) = true /\
    (12 + 24 * Z.to_nat (ReadLe32 i1 8) <= length i1)%nat /\
    t = table_of i1 (Z.to_nat (ReadLe32 i1 8)).
Proof.
  unfold Load_index1. cbv zeta. unfold Stream.open.
  cbn [is_open Stream.closed].
  destruct (fs index1Path) as [i1 |] eqn:Hfs.
  2:{ cbn. split; [discriminate | intros (i1 & H & _); discriminate]. }
  cbn [failbit].
  change {| is_open := true; fdata := i1; gpos := 0; failbit := false |}
    with {| is_open := true; fdata := i1; gpos := Z.of_nat 0; failbit := false |}.
  rewrite ReadFully_at_pos by lia. cbn [Nat.add skipn].
  destruct (Nat.leb_spec 12 (length i1)) as [H12 | H12].
  2:{ split; [discriminate |]. intros (i1' & E & H & _). inversion E; subst. lia. }
  rewrite (equal_magic_prefix kIndex1Magic 12 i1) by (simpl; lia).
  pose proof (ReadLe16_window i1 0 12 4) as E16. cbn [skipn Nat.add] in E16.
  pose proof (ReadLe32_window i1 0 12 8) as E32. cbn [skipn Nat.add] in E32.
  rewrite E16, E32 by lia.
  destruct (Std.equal Byte.eqb kIndex1Magic i1) eqn:Hm; cbn [negb].
  2:{ split; [discriminate |]. intros (i1' & E & _ & H & _). inversion E; subst.
      congruence. }
  destruct (supported_version (ReadLe16 i1 4)) eqn:Hv; cbn [negb].
  2:{ split; [discriminate |]. intros (i1' & E & _ & _ & H & _). inversion E; subst.
      congruence. }
  set (n := Z.to_nat (ReadLe32 i1 8)).
  destruct (Nat.le_gt_cases (12 + 24 * n) (length i1)) as [Hin | Hout].
  - rewrite (read_entries_Some i1 n 12 [] Hin). cbn [app].
    assert (Et : map (fun k => {| startRva := ReadLe64 i1 (12 + 24 * k);
                                  index2Offset := ReadLe64 i1 (12 + 24 * k + 8);
                                  index2Size := ReadLe32 i1 (12 + 24 * k + 16) |})
                     (seq 0 n) = table_of i1 n) by reflexivity.
    rewrite Et. split.
    + intros H; inversion H. exists i1. auto 10.
    + intros (i1' & E & _ & _ & _ & _ & ->). inversion E; subst. reflexivity.
  - rewrite (read_entries_None i1 n 12 [] H12 Hout). split; [discriminate |].
    intros (i1' & E & _ & _ & _ & H & _). inversion E; subst. fold n in H. lia.
Qed.

Lemma Load_index2_accepts (fs : FileSystem) (index2Path : string) (error : ptr string)
      (this : RvaIndexLookup) (i2 : list byte) :
  is_open (index2Stream_ this) = false ->
  index2OpenAttempted_ this = false ->
  fs index2Path = Some i2 ->
  (12 <= length i2)%nat ->
  Std.equal Byte.eqb kIndex2Magic i2 = true ->
  supported_version (ReadLe16 i2 4) = true ->
  (kVersion2 <= ReadLe16 i2 4 -> (16 <= length i2)%nat) ->
  ReadLe32 i2 8 = Z.of_nat (length (index1Entries_ this)) ->
  fst (fst (Load_index2 fs index2Path error this)) = true.
Proof.
  intros Hopen Hatt Hfs H12 Hm Hv H16 Hc.
  unfold Load_index2, Load_fail, EnsureIndex2Open. cbv zeta.
  destruct this as [t p n s a l ci cb].
  fields_in Hopen. fields_in Hatt. fields_in Hc. fields.
  subst a. rewrite Hopen.
  unfold Stream.open. rewrite Hopen, Hfs. fields.
  unfold Stream.seekg. fields. change (0 <? 0) with false. cbv iota.
  change {| is_open := true; fdata := i2; gpos := 0; failbit := false |}
    with {| is_open := true; fdata := i2; gpos := Z.of_nat 0; failbit := false |}.
  rewrite ReadFully_at_pos by lia. cbn [Nat.add skipn].
  destruct (Nat.leb_spec 12 (length i2)); [| lia].
  rewrite (equal_magic_prefix kIndex2Magic 12 i2) by (simpl; lia).
  pose proof (ReadLe16_window i2 0 12 4) as E16. cbn [skipn Nat.add] in E16.
  pose proof (ReadLe32_window i2 0 12 8) as E32. cbn [skipn Nat.add] in E32.
  rewrite E16, E32 by lia. rewrite Hm, Hv. cbn [negb]. fields.
  destruct (Z.leb_spec kVersion2 (ReadLe16 i2 4)) as [Hv2 | Hv1].
  - rewrite ReadFully_at_pos by lia.
    destruct (Nat.leb_spec (12 + 4) (length i2)); [| specialize (H16 Hv2); lia].
    fields. rewrite Hc, Z.eqb_refl. reflexivity.
  - fields. rewrite Hc, Z.eqb_refl. reflexivity.
Qed.

Lemma Load_index2_path (fs : FileSystem) (index2Path : string) (error error' : ptr string)
      (this this' : RvaIndexLookup) :
  is_open (index2Stream_ this) = false ->
  index2OpenAttempted_ this = false ->
  Load_index2 fs index2Path error this = (true, error', this') ->
  index2Path_ this' = index2Path.
Proof.
  intros Hopen Hatt.
  unfold Load_index2, Load_fail, EnsureIndex2Open. cbv zeta.
  destruct this as [t p n s a l ci cb].
  fields_in Hopen. fields_in Hatt. fields.
  subst a. rewrite Hopen.
  unfold Stream.open. rewrite Hopen.
  destruct (fs index2Path) as [i2 |]; fields; [| discriminate].
  destruct (Stream.ReadFully _ 12) as [[hdr |] s1]; [| discriminate]. fields.
  destruct (negb (Std.equal _ _ _)); [discriminate |].
  destruct (negb (supported_version _)); [discriminate |].
  destruct (kVersion2 <=? _).
  - destruct (Stream.ReadFully s1 4) as [[tot |] s2]; [| discriminate]. fields.
    destruct (negb (_ =? _)); [discriminate |].
    intros H; inversion H; subst. reflexivity.
  - fields. destruct (negb (_ =? _)); [discriminate |].
    intros H; inversion H; subst. reflexivity.
Qed.

(** X14.  [Load] returns true exactly for the pairs of files of the
    following shape.  Index file 1 exists, holds the 12-byte header with
    the magic IDX1 and a version among 1, 2, 3, declares at least one entry,
    holds all the 24-byte entries it declares, and its entries are in
    non-decreasing order of start key.  Index file 2 exists, holds the
    12-byte header with the magic IDX2 and a version among 1, 2, 3, holds
    the 4 bytes of the total when its version is at least 2, and declares as
    many blocks as file 1 declares entries.  The previous state of the
    object, the versions agreeing or not, and the blocks themselves play no
    part. *)
Theorem Load_accepts_iff (fs : FileSystem) (index1Path index2Path : string)
        (error : ptr string) (this0 : RvaIndexLookup) :
  fst (fst (Load fs index1Path index2Path error this0)) = true <->
  exists i1 i2,
    fs index1Path = Some i1 /\ fs index2Path = Some i2 /\
    (12 <= length i1)%nat /\
    Std.equal Byte.eqb kIndex1Magic i1 = true /\
    supported_version (ReadLe16 i1 4) = true /\
    0 < ReadLe32 i1 8 /\
    (12 + 24 * Z.to_nat (ReadLe32 i1 8) <= length i1)%nat /\
    routing_sorted (table_of i1 (Z.to_nat (ReadLe32 i1 8))) /\
    (12 <= length i2)%nat /\
    Std.equal Byte.eqb kIndex2Magic i2 = true /\
    supported_version (ReadLe16 i2 4) = true /\
    (2 <= ReadLe16 i2 4 -> (16 <= length i2)%nat) /\
    ReadLe32 i2 8 = ReadLe32 i1 8.
Proof.
  split.
  - intros H.
    destruct (Load fs index1Path index2Path error this0) as [[b e'] this] eqn:E.
    cbn [fst] in H. subst b.
    pose proof E as E0.
    apply Load_true in E.
    destruct E as (t & i2 & Ht & Hfs2 & _ & Hne & Hs & _ & _ & _ & _ & _ & Hm2 & Hv2 & Hc & _).
    apply Load_index1_inr in Ht.
    destruct Ht as (i1 & Hfs1 & H12 & Hm1 & Hv1 & Hin & ->).
    rewrite table_of_length in Hc.
    pose proof (ReadLe32_range i1 8) as Hr.
    exists i1, i2. repeat split; auto.
    + destruct (Z.to_nat (ReadLe32 i1 8)) eqn:En; [exfalso; apply Hne; reflexivity | lia].
    + (* the first 12 bytes of file 2 were read *)
      unfold Load in E0. cbv zeta in E0.
      destruct (Load_reset_fields this0) as (_ & _ & _ & R4 & R5 & _).
      destruct (Load_index1 fs index1Path) as [? | t'] ; [discriminate |].
      cbn [index1Entries_ set_index1Entries] in E0.
      destruct (Std.empty t'); [discriminate |].
      destruct (negb _); [discriminate |].
      destruct (Nat.le_gt_cases 12 (length i2)) as [? | Hshort]; [assumption | exfalso].
      revert E0. unfold Load_index2, Load_fail, EnsureIndex2Open. cbv zeta. fields.
      rewrite R4, R5. unfold Stream.open. rewrite R4, Hfs2. fields.
      unfold Stream.seekg. fields. change (0 <? 0) with false. cbv iota.
      change {| is_open := true; fdata := i2; gpos := 0; failbit := false |}
        with {| is_open := true; fdata := i2; gpos := Z.of_nat 0; failbit := false |}.
      rewrite ReadFully_at_pos by lia.
      destruct (Nat.leb_spec (0 + 12) (length i2)); [lia |]. discriminate.
    + intros Hv. 
      unfold Load in E0. cbv zeta in E0.
      destruct (Load_reset_fields this0) as (_ & _ & _ & R4 & R5 & _).
      destruct (Load_index1 fs index1Path) as [? | t'] ; [discriminate |].
      cbn [index1Entries_ set_index1Entries] in E0.
      destruct (Std.empty t'); [discriminate |].
      destruct (negb _); [discriminate |].
      destruct (Nat.le_gt_cases 16 (length i2)) as [? | Hshort]; [assumption | exfalso].
      revert E0. unfold Load_index2, Load_fail, EnsureIndex2Open. cbv zeta. fields.
      rewrite R4, R5. unfold Stream.open. rewrite R4, Hfs2. fields.
      unfold Stream.seekg. fields. change (0 <? 0) with false. cbv iota.
      change {| is_open := true; fdata := i2; gpos := 0; failbit := false |}
        with {| is_open := true; fdata := i2; gpos := Z.of_nat 0; failbit := false |}.
      rewrite ReadFully_at_pos by lia. cbn [Nat.add skipn].
      destruct (Nat.leb_spec 12 (length i2)); [| discriminate].
      rewrite (equal_magic_prefix kIndex2Magic 12 i2) by (simpl; lia).
      pose proof (ReadLe16_window i2 0 12 4) as E16. cbn [skipn Nat.add] in E16.
      rewrite E16 by lia. rewrite Hm2, Hv2. cbn [negb]. fields.
      destruct (Z.leb_spec kVersion2 (ReadLe16 i2 4)); [| unfold kVersion2 in *; lia].
      rewrite ReadFully_at_pos by lia.
      destruct (Nat.leb_spec (12 + 4) (length i2)); [lia |]. discriminate.
    + lia.
  - intros (i1 & i2 & Hfs1 & Hfs2 & H12 & Hm1 & Hv1 & Hpos & Hin & Hs & H12' & Hm2 & Hv2
            & H16 & Hc).
    unfold Load. cbv zeta.
    assert (Ht : Load_index1 fs index1Path = inr (table_of i1 (Z.to_nat (ReadLe32 i1 8)))).
    { apply Load_index1_inr. exists i1. auto 10. }
    rewrite Ht. cbn [index1Entries_ set_index1Entries].
    set (t := table_of i1 (Z.to_nat (ReadLe32 i1 8))) in *.
    assert (Hlen : length t = Z.to_nat (ReadLe32 i1 8)) by apply table_of_length.
    assert (Hne : t <> []).
    { intros E. rewrite E in Hlen. simpl in Hlen. lia. }
    rewrite (empty_false t Hne).
    rewrite (proj2 (is_sorted_key startRva Index1Entry_default t) Hs). cbn [negb].
    destruct (Load_reset_fields this0) as (_ & _ & _ & R4 & R5 & _).
    apply (Load_index2_accepts fs index2Path error _ i2); auto.
    cbn [index1Entries_ set_index1Entries]. rewrite Hc, Hlen. lia.
Qed.

(** X15.  After a successful [Load] the routing table has as many entries as
    the header of index file 1 declares, and entry [k] holds the start key,
    the block offset and the block size read at the offsets 12 + 24 * k,
    + 8 and + 16 of the file (the 4 trailing bytes of each record are
    ignored); the path of index file 2 is remembered and the caller's error
    string is left as it was. *)
Theorem loaded_table_layout (fs : FileSystem) (index1Path index2Path : string)
        (error error' : ptr string) (this0 this : RvaIndexLookup) :
  Load fs index1Path index2Path error this0 = (true, error', this) ->
  exists i1,
    fs index1Path = Some i1 /\
    Z.of_nat (length (table this)) = ReadLe32 i1 8 /\
    (forall k, (k < length (table this))%nat ->
               startRva (entry_at this k) = ReadLe64 i1 (12 + 24 * k) /\
               index2Offset (entry_at this k) = ReadLe64 i1 (12 + 24 * k + 8) /\
               index2Size (entry_at this k) = ReadLe32 i1 (12 + 24 * k + 16)) /\
    index2Path_ this = index2Path /\
    error' = error.
Proof.
  intros E. pose proof E as E0. apply Load_true in E.
  destruct E as (t & i2 & Ht & Hfs2 & He & Hne & Hs & Htab & _).
  apply Load_index1_inr in Ht. destruct Ht as (i1 & Hfs1 & _ & _ & _ & _ & ->).
  pose proof (ReadLe32_range i1 8) as Hr.
  exists i1. split; [exact Hfs1 |]. rewrite Htab, table_of_length.
  split; [lia |]. split; [| split; [| exact He]].
  - intros k Hk. unfold entry_at. rewrite Htab, table_of_nth by exact Hk.
    repeat split.
  - unfold Load in E0. cbv zeta in E0.
    destruct (Load_reset_fields this0) as (_ & _ & _ & R4 & R5 & _).
    destruct (Load_index1 fs index1Path); [discriminate |].
    destruct (Std.empty _); [discriminate |].
    destruct (negb _); [discriminate |].
    apply Load_index2_path in E0; auto.
Qed.

(** X15, witness: the index [fs_good]. *)
Lemma loaded_table_layout_witness :
  exists i1,
    Examples.fs_good "index1.bin" = Some i1 /\
    Z.of_nat (length (table (Synth.loaded Examples.fs_good))) = ReadLe32 i1 8 /\
    (forall k, (k < length (table (Synth.loaded Examples.fs_good)))%nat ->
               startRva (entry_at (Synth.loaded Examples.fs_good) k)
               = ReadLe64 i1 (12 + 24 * k) /\
               index2Offset (entry_at (Synth.loaded Examples.fs_good) k)
               = ReadLe64 i1 (12 + 24 * k + 8) /\
               index2Size (entry_at (Synth.loaded Examples.fs_good) k)
               = ReadLe32 i1 (12 + 24 * k + 16)) /\
    index2Path_ (Synth.loaded Examples.fs_good) = "index2.bin" /\
    Some "" = Some "".
Proof.
  apply (loaded_table_layout Examples.fs_good "index1.bin" "index2.bin"
           (Some "") (Some "") RvaIndexLookup_new).
  vm_compute. reflexivity.
Defined.

(** ** [Load] and the previous state of the object *)

Lemma Load_reset_shape (this0 : RvaIndexLookup) :
  exists s0, is_open s0 = false /\
             Load_reset this0 = set_index2Stream s0 (Load_reset RvaIndexLookup_new).
Proof.
  destruct this0 as [t p n s a l ci cb]. unfold Load_reset. fields.
  destruct (is_open s) eqn:Ho; fields.
  - exists (Stream.close s). split; [unfold Stream.close; rewrite Ho |]; reflexivity.
  - exists s. split; [exact Ho | reflexivity].
Qed.

Lemma Load_index2_any_stream (fs : FileSystem) (index2Path : string) (error : ptr string)
      (this : RvaIndexLookup) (s : ifstream) :
  is_open s = false ->
  is_open (index2Stream_ this) = false ->
  index2OpenAttempted_ this = false ->
  let r := Load_index2 fs index2Path error (set_index2Stream s this) in
  let r0 := Load_index2 fs index2Path error this in
  fst r = fst r0 /\
  set_index2Stream Stream.closed (snd r) = set_index2Stream Stream.closed (snd r0) /\
  (fst (fst r) = true -> snd r = snd r0).
Proof.
  intros Hs Ho Ha. cbv zeta.
  unfold Load_index2, Load_fail, EnsureIndex2Open. cbv zeta.
  destruct this as [t p n s1 a l ci cb]. fields_in Ho. fields_in Ha. subst a. fields.
  rewrite Hs, Ho. unfold Stream.open. rewrite Hs, Ho.
  destruct (fs index2Path) as [i2 |]; fields.
  - repeat split.
  - repeat split. discriminate.
Qed.

(** X16.  [Load] starts from scratch: the flag and the error it returns, and
    every member it leaves except the unopened stream object, are those of
    the same call on a freshly constructed object; after a successful call
    the whole object is. *)
Theorem Load_forgets_previous_state (fs : FileSystem) (index1Path index2Path : string)
        (error : ptr string) (this0 : RvaIndexLookup) :
  let r := Load fs index1Path index2Path error this0 in
  let r0 := Load fs index1Path index2Path error RvaIndexLookup_new in
  fst r = fst r0 /\
  set_index2Stream Stream.closed (snd r) = set_index2Stream Stream.closed (snd r0) /\
  (fst (fst r) = true -> snd r = snd r0).
Proof.
  cbv zeta. unfold Load. cbv zeta.
  destruct (Load_reset_shape this0) as (s0 & Hs0 & ->).
  set (B := Load_reset RvaIndexLookup_new).
  destruct (Load_index1 fs index1Path) as [msg | t].
  { cbn [fst snd]. repeat split. discriminate. }
  cbn [index1Entries_ set_index1Entries set_index2Stream].
  destruct (Std.empty t).
  { cbn [fst snd]. repeat split. discriminate. }
  destruct (negb _).
  { cbn [fst snd]. repeat split. discriminate. }
  apply (Load_index2_any_stream fs index2Path error (set_index1Entries t B) s0 Hs0);
    reflexivity.
Qed.

(** ** What [Load] reports *)

Lemma Load_index1_inl (fs : FileSystem) (index1Path msg : string) :
  Load_index1 fs index1Path = inl msg ->
  msg = String.append "Failed to open index1 file: " index1Path \/
  In msg ["Failed to read index1 header"; "index1 magic mismatch (expected IDX1)";
          "Unsupported index1 version"; "Failed to read index1 entry"].
Proof.
  unfold Load_index1. cbv zeta.
  destruct (failbit _); [intros H; inversion H; auto |].
  destruct (Stream.ReadFully _ 12) as [[hdr |] f];
    [| intros H; inversion H; right; simpl; auto].
  destruct (negb (Std.equal _ _ _)); [intros H; inversion H; right; simpl; auto |].
  destruct (negb (supported_version _)); [intros H; inversion H; right; simpl; auto |].
  destruct (read_entries _ _ _); [discriminate |].
  intros H; inversion H; right; simpl; auto.
Qed.

Lemma Load_index2_reports (fs : FileSystem) (index2Path : string) (error error' : ptr string)
      (this this' : RvaIndexLookup) :
  is_open (index2Stream_ this) = false ->
  index2OpenAttempted_ this = false ->
  Load_index2 fs index2Path error this = (false, error', this') ->
  exists msg,
    error' = SetError error msg /\
    (msg = String.append "Failed to open index2 file: " index2Path \/
     In msg ["Failed to read index2 header"; "index2 magic mismatch (expected IDX2)";
             "Unsupported index2 version"; "Failed to read index2 total_dump_lines";
             "index1 entry count does not match index2 block count"]).
Proof.
  intros Hopen Hatt.
  unfold Load_index2, Load_fail, EnsureIndex2Open. cbv zeta.
  destruct this as [t p n s a l ci cb].
  fields_in Hopen. fields_in Hatt. fields.
  subst a. rewrite Hopen.
  unfold Stream.open. rewrite Hopen.
  destruct (fs index2Path) as [i2 |]; fields.
  2:{ intros H; inversion H; subst. eexists. split; [reflexivity | left; reflexivity]. }
  destruct (Stream.ReadFully _ 12) as [[hdr |] s1].
  2:{ intros H; inversion H; subst. eexists. split; [reflexivity | right; simpl; auto]. }
  fields.
  destruct (negb (Std.equal _ _ _)).
  { intros H; inversion H; subst. eexists. split; [reflexivity | right; simpl; auto]. }
  destruct (negb (supported_version _)).
  { intros H; inversion H; subst. eexists. split; [reflexivity | right; simpl; auto]. }
  destruct (kVersion2 <=? _).
  - destruct (Stream.ReadFully s1 4) as [[tot |] s2].
    2:{ intros H; inversion H; subst. eexists. split; [reflexivity | right; simpl; auto]. }
    fields. destruct (negb (_ =? _)); [| discriminate].
    intros H; inversion H; subst. eexists. split; [reflexivity | right; simpl; auto 6].
  - fields. destruct (negb (_ =? _)); [| discriminate].
    intros H; inversion H; subst. eexists. split; [reflexivity | right; simpl; auto 6].
Qed.

(** X17.  A successful [Load] leaves the caller's error string as it was; a
    failed [Load] (called with a non-null pointer) always stores a reason:
    the message naming the file that could not be opened, or one of eleven
    fixed messages. *)
Theorem Load_reports (fs : FileSystem) (index1Path index2Path : string)
        (error : ptr string) (this0 : RvaIndexLookup) :
  let r := Load fs index1Path index2Path error this0 in
  (fst (fst r) = true -> snd (fst r) = error) /\
  (fst (fst r) = false ->
   exists msg,
     snd (fst r) = SetError error msg /\
     (msg = String.append "Failed to open index1 file: " index1Path \/
      msg = String.append "Failed to open index2 file: " index2Path \/
      In msg ["Failed to read index1 header"; "index1 magic mismatch (expected IDX1)";
              "Unsupported index1 version"; "Failed to read index1 entry";
              "index1 has no entries"; "index1 entries are not sorted by startRva";
              "Failed to read index2 header"; "index2 magic mismatch (expected IDX2)";
              "Unsupported index2 version"; "Failed to read index2 total_dump_lines";
              "index1 entry count does not match index2 block count"])).
Proof.
  cbv zeta. split.
  - intros H.
    destruct (Load fs index1Path index2Path error this0) as [[b e'] this] eqn:E.
    cbn [fst snd] in *. subst b. apply Load_true in E.
    destruct E as (_ & _ & _ & _ & He & _). exact He.
  - unfold Load. cbv zeta.
    destruct (Load_reset_fields this0) as (_ & _ & _ & R4 & R5 & _).
    destruct (Load_index1 fs index1Path) as [msg | t] eqn:E1.
    { intros _. cbn [fst snd]. exists msg. split; [reflexivity |].
      apply Load_index1_inl in E1. destruct E1 as [-> | Hin]; [left; reflexivity |].
      right. right. simpl in *. intuition auto. }
    cbn [index1Entries_ set_index1Entries].
    destruct (Std.empty t).
    { intros _. cbn [fst snd]. eexists. split; [reflexivity |].
      right. right. simpl. auto 10. }
    destruct (negb _).
    { intros _. cbn [fst snd]. eexists. split; [reflexivity |].
      right. right. simpl. auto 10. }
    destruct (Load_index2 _ _ _ _) as [[b e'] this'] eqn:E2. cbn [fst snd]. intros ->.
    apply Load_index2_reports in E2; auto.
    destruct E2 as (msg & -> & [-> | Hin]).
    + eexists. split; [reflexivity | right; left; reflexivity].
    + exists msg. split; [reflexivity |]. right. right. simpl in *. intuition auto.
Qed.

(** X18.  Whatever it returns, [Load] leaves the cache slot vacant: no block
    decoded from a previously loaded index survives a call of [Load]. *)
Theorem Load_vacates_cache (fs : FileSystem) (index1Path index2Path : string)
        (error : ptr string) (this0 : RvaIndexLookup) :
  let r := Load fs index1Path index2Path error this0 in
  cachedBlockIndex_ (snd r) = SIZE_MAX /\ cachedBlock_ (snd r) = DecodedBlock_empty.
Proof.
  cbv zeta.
  destruct (Load fs index1Path index2Path error this0) as [[b e'] this] eqn:E.
  cbn [snd]. destruct b.
  - apply Load_true in E.
    destruct E as (_ & _ & _ & _ & _ & _ & _ & _ & _ & _ & Hci & Hcb & _). auto.
  - pose proof (Load_false fs index1Path index2Path error this0) as F. cbv zeta in F.
    rewrite E in F. destruct (F eq_refl) as (_ & _ & Hci & Hcb). auto.
Qed.
